(** * Status page tracker: change detection, conditional fetching, monitor loop

    A shallow embedding of [status_tracker.py] and the properties of its
    polling / caching / change-detection engine.

    Layout:
    - [PyLib]: the functions of the Python standard library the program
      calls on strings and timestamps ([str.lower], [str.strip],
      [str.split], [calendar.timegm], [datetime.isoformat]);
    - the data model, the feed-entry helpers, [parse_incident] and the
      methods of [StatusPageMonitor];
    - [Sample]: concrete feeds, callbacks and monitors;
    - the theorems, one group per property, then further properties of
      the text helpers, of consecutive cycles and of whole runs.

    Conventions of the embedding:
    - a Python [str] whose code points are below 256 is the [string] of
      its code points, one character each (so that [String.length] is
      [len] and [s[:n]] keeps [n] characters); the text helpers act on
      the ASCII letters and the ASCII white space; text with other code
      points is outside the model;
    - an aware UTC [datetime] is the number of microseconds since the
      epoch; a [datetime] holds a year from 1 to 9999 ([valid_datetime]);
    - the model follows the runs in which the library calls return: an
      exception of [HTMLParser.feed], of [calendar.timegm] on a date that
      does not exist, of [.lower()] on a tag whose label is present with
      value [None], or an exception of [resp.text()] other than the two
      the program catches, is outside the model;
    - a [dict] with [str] keys is a [gmap string _];
    - a method that mutates [self] takes the monitor and returns the new one;
    - effects on the outside world (the wall clock, the notification
      callback, the feed parser) are threaded through a [World] value;
    - [logger] calls have no effect on the state and are left out. *)

From Stdlib Require Import ZArith List String Ascii Bool Lia.
From stdpp Require Import base option list strings gmap fin_maps.

Import ListNotations.
Local Open Scope string_scope.
Local Open Scope Z_scope.

(* ===================================================================== *)
(** ** Python library functions used by the program *)
(* ===================================================================== *)

Module PyLib.

(** *** [str] *)

Definition nl : ascii := ascii_of_nat 10.

(** [needle in hay] *)
Fixpoint str_in (needle hay : string) : bool :=
  String.prefix needle hay ||
  match hay with
  | EmptyString => false
  | String _ rest => str_in needle rest
  end.

(** [s.split("\n")]: never empty, [""] for the empty string. *)
Fixpoint str_split_nl (s : string) : list string :=
  match s with
  | EmptyString => [EmptyString]
  | String c rest =>
      if Ascii.eqb c nl then EmptyString :: str_split_nl rest
      else match str_split_nl rest with
           | [] => [String c EmptyString]
           | l :: ls => String c l :: ls
           end
  end.

Fixpoint str_lstrip (p : ascii -> bool) (s : string) : string :=
  match s with
  | EmptyString => EmptyString
  | String c rest => if p c then str_lstrip p rest else s
  end.

Fixpoint str_rstrip (p : ascii -> bool) (s : string) : string :=
  match s with
  | EmptyString => EmptyString
  | String c rest =>
      match str_rstrip p rest with
      | EmptyString => if p c then EmptyString else String c EmptyString
      | rest' => String c rest'
      end
  end.

(** [s.strip(chars)] with the character set given as a predicate. *)
Definition str_strip_by (p : ascii -> bool) (s : string) : string :=
  str_rstrip p (str_lstrip p s).

(** ASCII white space as [str.isspace] sees it (on the code points
    above 127, [str.strip] removes more). *)
Definition is_space (c : ascii) : bool :=
  let n := nat_of_ascii c in
  ((9 <=? n) && (n <=? 13) || (28 <=? n) && (n <=? 32))%nat.

(** [s.strip()] *)
Definition str_strip (s : string) : string := str_strip_by is_space s.

(** [s.strip("- ")] *)
Definition is_dash_or_blank (c : ascii) : bool :=
  Ascii.eqb c "-"%char || Ascii.eqb c " "%char.

Definition lower_char (c : ascii) : ascii :=
  let n := nat_of_ascii c in
  if ((65 <=? n) && (n <=? 90))%nat then ascii_of_nat (n + 32) else c.

(** [s.lower()] *)
Fixpoint str_lower (s : string) : string :=
  match s with
  | EmptyString => EmptyString
  | String c rest => String (lower_char c) (str_lower rest)
  end.

(** [s[:n]] *)
Definition str_take (n : nat) (s : string) : string := substring 0 n s.

(** [bool(s)] *)
Definition truthy (s : string) : bool :=
  match s with EmptyString => false | _ => true end.

(** [sep.join(parts)] with the empty separator. *)
Definition str_concat (parts : list string) : string :=
  fold_right String.append EmptyString parts.

(** *** [time.struct_time], [calendar.timegm] *)

Record struct_time := {
  tm_year : Z; tm_mon : Z; tm_mday : Z;
  tm_hour : Z; tm_min : Z; tm_sec : Z;
  tm_wday : Z; tm_yday : Z; tm_isdst : Z
}.

Definition is_leap (y : Z) : bool :=
  (y mod 4 =? 0) && (negb (y mod 100 =? 0) || (y mod 400 =? 0)).

Definition days_before_year (y : Z) : Z :=
  let y1 := y - 1 in y1 * 365 + y1 / 4 - y1 / 100 + y1 / 400.

Definition DAYS_IN_MONTH : list Z :=
  [-1; 31; 28; 31; 30; 31; 30; 31; 31; 30; 31; 30; 31].

Definition DAYS_BEFORE_MONTH : list Z :=
  [-1; 0; 31; 59; 90; 120; 151; 181; 212; 243; 273; 304; 334].

Definition days_before_month (y m : Z) : Z :=
  nth (Z.to_nat m) DAYS_BEFORE_MONTH 0
  + (if (2 <? m) && is_leap y then 1 else 0).

(** [date(y, m, d).toordinal()] for a valid date. *)
Definition ymd2ord (y m d : Z) : Z :=
  days_before_year y + days_before_month y m + d.

Definition EPOCH_ORD : Z := 719163.

(** [calendar.timegm]: only the first six fields are read.  For a date
    that exists (month 1 to 12, year 1 to 9999); on another one
    [calendar.timegm] raises [ValueError]. *)
Definition timegm (t : struct_time) : Z :=
  let days := ymd2ord (tm_year t) (tm_mon t) 1 - EPOCH_ORD + tm_mday t - 1 in
  let hours := days * 24 + tm_hour t in
  let minutes := hours * 60 + tm_min t in
  minutes * 60 + tm_sec t.

(** *** [datetime] (aware, UTC): microseconds since the epoch *)

Definition datetime := Z.

(** [datetime.fromtimestamp(secs, tz=timezone.utc)] for an [int]. *)
Definition fromtimestamp (secs : Z) : datetime := secs * 1000000.

(** [_ord2ymd] of [datetime.py]. *)
Definition ord2ymd (ordinal : Z) : Z * Z * Z :=
  let n := ordinal - 1 in
  let n400 := n / 146097 in let n := n mod 146097 in
  let year := n400 * 400 + 1 in
  let n100 := n / 36524 in let n := n mod 36524 in
  let n4 := n / 1461 in let n := n mod 1461 in
  let n1 := n / 365 in let n := n mod 365 in
  let year := year + n100 * 100 + n4 * 4 + n1 in
  if (n1 =? 4) || (n100 =? 4) then (year - 1, 12, 31)
  else
    let leapyear := (n1 =? 3) && (negb (n4 =? 24) || (n100 =? 3)) in
    let month := Z.shiftr (n + 50) 5 in
    let preceding :=
      nth (Z.to_nat month) DAYS_BEFORE_MONTH 0
      + (if (2 <? month) && leapyear then 1 else 0) in
    if n <? preceding then
      let month' := month - 1 in
      let preceding' :=
        preceding - (nth (Z.to_nat month') DAYS_IN_MONTH 0
                     + (if (month' =? 2) && leapyear then 1 else 0)) in
      (year, month', n - preceding' + 1)
    else (year, month, n - preceding + 1).

(** ["%0kd" % z] for [0 <= z < 10^k]. *)
Fixpoint digits (k : nat) (z : Z) : string :=
  match k with
  | O => EmptyString
  | S k' =>
      digits k' (z / 10)
      ++ String (ascii_of_nat (48 + Z.to_nat (z mod 10))) EmptyString
  end.

(** [dt.isoformat()] of an aware UTC datetime: the fraction is printed
    only when the microsecond field is not zero. *)
Definition isoformat (dt : datetime) : string :=
  let secs := dt / 1000000 in
  let us := dt mod 1000000 in
  let day := secs / 86400 in
  let rem := secs mod 86400 in
  let '(y, m, d) := ord2ymd (day + EPOCH_ORD) in
  digits 4 y ++ "-" ++ digits 2 m ++ "-" ++ digits 2 d ++ "T"
  ++ digits 2 (rem / 3600) ++ ":" ++ digits 2 (rem mod 3600 / 60)
  ++ ":" ++ digits 2 (rem mod 60)
  ++ (if us =? 0 then "" else "." ++ digits 6 us)
  ++ "+00:00".

(** The year of a datetime, and the range [MINYEAR .. MAXYEAR] a
    [datetime] object is confined to. *)
Definition MINYEAR : Z := 1.
Definition MAXYEAR : Z := 9999.

Definition datetime_year (dt : datetime) : Z :=
  (ord2ymd (dt / 1000000 / 86400 + EPOCH_ORD)).1.1.

Definition valid_datetime (dt : datetime) : Prop :=
  MINYEAR <= datetime_year dt <= MAXYEAR.

#[global] Instance valid_datetime_dec dt : Decision (valid_datetime dt).
Proof. unfold valid_datetime. apply and_dec; apply Z_le_dec. Defined.

(** [dt.strftime("%Y-%m-%d %H:%M:%S")] of an aware UTC datetime, for a
    year of four digits (a year below 1000 is printed without leading
    zeros by the C library and is outside the model). *)
Definition strftime_ymd_hms (dt : datetime) : string :=
  let secs := dt / 1000000 in
  let day := secs / 86400 in
  let rem := secs mod 86400 in
  let '(y, m, d) := ord2ymd (day + EPOCH_ORD) in
  digits 4 y ++ "-" ++ digits 2 m ++ "-" ++ digits 2 d ++ " "
  ++ digits 2 (rem / 3600) ++ ":" ++ digits 2 (rem mod 3600 / 60)
  ++ ":" ++ digits 2 (rem mod 60).

End PyLib.

Import PyLib.

(* ===================================================================== *)
(** ** Data model *)
(* ===================================================================== *)

(** A [<category>] element of a feed entry: a dict read with
    [tag.get("term", "")] and [tag.get("label", "")]; [None] is a missing
    key.  A key present with the value [None] (on which
    [_parse_status] raises [AttributeError]) is outside the model. *)
Record Tag := { tag_term : option string; tag_label : option string }.

(** An element of [entry.content], read with [.get("value", "")]. *)
Record Content := { content_value : option string }.

(** A feedparser entry.  A field is [None] when the entry has no such
    key, which is what [entry.get(k)] and [hasattr(entry, k)] observe. *)
Record Entry := {
  e_id : option string;
  e_title : option string;
  e_link : option string;
  e_updated_parsed : option struct_time;
  e_published_parsed : option struct_time;
  e_tags : option (list Tag);
  e_content : option (list Content);
  e_summary : option string
}.

(** The result of [feedparser.parse]: [feed.bozo] and [feed.entries]. *)
Record Feed := { bozo : bool; entries : list Entry }.

(** [class IncidentUpdate] *)
Record IncidentUpdate := {
  id : string;
  title : string;
  link : string;
  status : string;
  affected_components : list string;
  latest_message : string;
  updated_at : datetime
}.

(** An exception, by its message. *)
Definition Exn := string.

(** One invocation [callback(page_name, incident)]. *)
Definition Call : Type := string * IncidentUpdate.

(** The part of the outside world the monitor acts on:
    - [clock_reads]: how many times [datetime.now] has been called;
    - [calls]: the invocations of the notification callback, oldest first;
    - [parsed]: the bodies handed to [feedparser.parse], oldest first. *)
Record World := {
  clock_reads : nat;
  calls : list Call;
  parsed : list string
}.

Definition world0 : World :=
  {| clock_reads := 0; calls := []; parsed := [] |}.

(** A notification callback returns normally ([None]) or raises
    ([Some e]); what it does may depend on the invocations made so far. *)
Definition Callback : Type := string -> IncidentUpdate -> list Call -> option Exn.

(** The fields of [StatusPageMonitor]. *)
Record StatusPageMonitor := {
  name : string;
  feed_url : string;
  callback : Callback;
  poll_interval : Z;
  _etag : option string;
  _last_modified : option string;
  _seen_incidents : gmap string string;
  _running : bool
}.

(** What reading the body of a response gives: the text, or an
    [aiohttp.ClientError] / [asyncio.TimeoutError] raised by [resp.text()].
    Another exception of [resp.text()] ([UnicodeDecodeError]) is not
    caught by the program and is outside the model. *)
Inductive BodyRead :=
| BodyText (body : string)
| BodyError (reason : string).

(** What [session.get] gives: an [aiohttp.ClientError] or
    [asyncio.TimeoutError] before any response, or a response with its
    status, its [ETag] and [Last-Modified] headers and its body. *)
Inductive HttpResult :=
| NetError (reason : string)
| Response (status : Z) (etag last_modified : option string) (body : BodyRead).

(** The server and the network, as seen by one request: from the request
    headers to the result. *)
Definition HttpGet : Type := gmap string string -> HttpResult.

(** How a method call ends. *)
Inductive Outcome :=
| Done
| Raised (e : Exn).

(** What the environment does between two cycles of the loop of [start]:
    the poll interval elapses and the next request is answered by
    [http_get], or [stop] has been called. *)
Inductive Tick :=
| Poll (http_get : HttpGet)
| Stop.

(** How a run of [start] over a finite schedule ends: still in the loop,
    out of the loop after [stop], or ended by an exception. *)
Inductive RunState :=
| Running
| Stopped
| Crashed (e : Exn).

(** The collaborators outside the program:
    - [html_data html]: the text chunks [HTMLParser.feed(html)] passes to
      [handle_data], in order, when [feed] returns;
    - [feedparser_parse body]: [feedparser.parse(body)];
    - [wall_clock n]: what the call number [n] of
      [datetime.now(tz=timezone.utc)] returns. *)
Class Environment := {
  html_data : string -> list string;
  feedparser_parse : string -> Feed;
  wall_clock : nat -> datetime
}.

(* ===================================================================== *)
(** ** The program *)
(* ===================================================================== *)

Section Model.
Context `{Environment}.

(** *** HTML stripping *)

(** [strip_html]: the chunks collected by [_HTMLStripper.handle_data],
    joined and stripped. *)
Definition strip_html (html : string) : string :=
  str_strip (str_concat (html_data html)).

(** *** Feed parser helpers *)

(** The block the three text helpers open with:
    [entry.content[0].get("value", "")] when the entry has a non-empty
    [content], else [entry.summary or ""] when it has a summary, else
    [""]. *)
Definition raw_text (entry : Entry) : string :=
  match e_content entry with
  | Some (c :: _) => default "" (content_value c)
  | _ =>
      match e_summary entry with
      | Some s => s
      | None => ""
      end
  end.

(** Method 1 of [_parse_components]: the non-empty [term] of each tag. *)
Fixpoint tag_terms (tags : list Tag) : list string :=
  match tags with
  | [] => []
  | tag :: rest =>
      let term := default "" (tag_term tag) in
      if truthy term then term :: tag_terms rest else tag_terms rest
  end.

(** Method 2 of [_parse_components]: the lines that hold both
    parentheses, stripped of dashes and blanks. *)
Fixpoint component_lines (lines : list string) : list string :=
  match lines with
  | [] => []
  | line :: rest =>
      let line := str_strip (str_strip_by is_dash_or_blank line) in
      if str_in "(" line && str_in ")" line
      then line :: component_lines rest
      else component_lines rest
  end.

Definition _parse_components (entry : Entry) : list string :=
  let components :=
    match e_tags entry with
    | Some (tag :: rest) => tag_terms (tag :: rest)
    | _ => []
    end in
  match components with
  | [] => component_lines (str_split_nl (strip_html (raw_text entry)))
  | _ => components
  end.

Definition STATUS_LABELS : list string :=
  ["investigating"; "identified"; "monitoring"; "resolved";
   "degraded performance"; "partial outage"; "major outage"].

(** The loop over the tags in [_parse_status]: the label of the first
    tag whose lower-cased label is a known status. *)
Fixpoint status_from_tags (tags : list Tag) : option string :=
  match tags with
  | [] => None
  | tag :: rest =>
      let label := str_lower (default "" (tag_label tag)) in
      if bool_decide (label ∈ STATUS_LABELS)
      then Some (default label (tag_label tag))
      else status_from_tags rest
  end.

Definition status_from_text (text : string) : string :=
  let lower := str_lower text in
  if str_in "resolved" lower || str_in "fully recovered" lower then "Resolved"
  else if str_in "monitoring" lower then "Monitoring"
  else if str_in "identified" lower then "Identified"
  else if str_in "investigating" lower then "Investigating"
  else if str_in "degraded" lower then "Degraded Performance"
  else "Unknown".

Definition _parse_status (entry : Entry) : string :=
  match status_from_tags (default [] (e_tags entry)) with
  | Some label => label
  | None => status_from_text (strip_html (raw_text entry))
  end.

(** The loop of [_parse_latest_message]: the first stripped line that
    is not empty and holds no opening parenthesis. *)
Fixpoint first_plain_line (lines : list string) : option string :=
  match lines with
  | [] => None
  | line :: rest =>
      let line := str_strip line in
      if truthy line && negb (str_in "(" line) then Some line
      else first_plain_line rest
  end.

Definition _parse_latest_message (entry : Entry) : string :=
  let text := strip_html (raw_text entry) in
  match first_plain_line (str_split_nl text) with
  | Some line => line
  | None => if truthy text then str_take 200 text else "(no message)"
  end.

(** [datetime.now(tz=timezone.utc)] *)
Definition datetime_now (w : World) : datetime * World :=
  (wall_clock (clock_reads w),
   {| clock_reads := S (clock_reads w);
      calls := calls w; parsed := parsed w |}).

(** [entry.get("updated_parsed") or entry.get("published_parsed")] *)
Definition time_struct_of (entry : Entry) : option struct_time :=
  match e_updated_parsed entry with
  | Some t => Some t
  | None => e_published_parsed entry
  end.

Definition _parse_timestamp (entry : Entry) (w : World) : datetime * World :=
  match time_struct_of entry with
  | Some time_struct => (fromtimestamp (timegm time_struct), w)
  | None => datetime_now w
  end.

(** [entry.get("id", entry.get("link", ""))] *)
Definition entry_identity (entry : Entry) : string :=
  match e_id entry with
  | Some i => i
  | None => default "" (e_link entry)
  end.

Definition parse_incident (entry : Entry) (w : World) : IncidentUpdate * World :=
  let '(ts, w') := _parse_timestamp entry w in
  ({| id := entry_identity entry;
      title := default "Unknown Incident" (e_title entry);
      link := default "" (e_link entry);
      status := _parse_status entry;
      affected_components := _parse_components entry;
      latest_message := _parse_latest_message entry;
      updated_at := ts |}, w').

(** *** Console callback *)

(** [on_incident_update] prints the incident and returns; the printed
    text is not part of the model. *)
Definition on_incident_update : Callback := fun _ _ _ => None.

(** The lines [on_incident_update] prints, one per [print] call: a blank
    line, a rule, one product line per affected component (or a single
    one without component when there is none), the four detail lines and
    a rule. *)
Definition RULE : string :=
  "======================================================================".

Definition product_lines (timestamp page_name : string)
    (components : list string) : list string :=
  match components with
  | [] => ["[" ++ timestamp ++ "] Product: " ++ page_name]
  | _ =>
      (fun component =>
         "[" ++ timestamp ++ "] Product: " ++ page_name ++ " - " ++ component)
        <$> components
  end%string.

Definition on_incident_update_output (page_name : string)
    (incident : IncidentUpdate) : list string :=
  let timestamp := strftime_ymd_hms (updated_at incident) in
  app [""; RULE]
    (app (product_lines timestamp page_name (affected_components incident))
       ["  Incident: " ++ title incident;
        "  Status:   " ++ status incident;
        "  Message:  " ++ latest_message incident;
        "  Link:     " ++ link incident;
        RULE]).

(** *** [StatusPageMonitor] *)

Definition __init__ (name feed_url : string) (callback : option Callback)
    (poll_interval : Z) : StatusPageMonitor :=
  {| name := name;
     feed_url := feed_url;
     callback := default on_incident_update callback;
     poll_interval := poll_interval;
     _etag := None;
     _last_modified := None;
     _seen_incidents := ∅;
     _running := false |}.

Definition set_running (b : bool) (self : StatusPageMonitor) : StatusPageMonitor :=
  {| name := name self; feed_url := feed_url self;
     callback := callback self; poll_interval := poll_interval self;
     _etag := _etag self; _last_modified := _last_modified self;
     _seen_incidents := _seen_incidents self; _running := b |}.

Definition set_validators (etag last_modified : option string)
    (self : StatusPageMonitor) : StatusPageMonitor :=
  {| name := name self; feed_url := feed_url self;
     callback := callback self; poll_interval := poll_interval self;
     _etag := etag; _last_modified := last_modified;
     _seen_incidents := _seen_incidents self; _running := _running self |}.

Definition set_seen (seen : gmap string string)
    (self : StatusPageMonitor) : StatusPageMonitor :=
  {| name := name self; feed_url := feed_url self;
     callback := callback self; poll_interval := poll_interval self;
     _etag := _etag self; _last_modified := _last_modified self;
     _seen_incidents := seen; _running := _running self |}.

(** [stop] *)
Definition stop (self : StatusPageMonitor) : StatusPageMonitor :=
  set_running false self.

(** [self.callback(self.name, incident)]: the invocation is recorded,
    then the callback returns or raises. *)
Definition fire (self : StatusPageMonitor) (incident : IncidentUpdate)
    (w : World) : option Exn * World :=
  (callback self (name self) incident (calls w),
   {| clock_reads := clock_reads w;
      calls := calls w ++ [(name self, incident)];
      parsed := parsed w |}).

(** [incident.updated_at.isoformat()] *)
Definition updated_key (incident : IncidentUpdate) : string :=
  isoformat (updated_at incident).

(** The [for entry in entries] loop of [_process_entries], with the
    local [new_seen] as accumulator.  [self._seen_incidents] is not
    written inside the loop.  An exception out of the callback leaves
    the loop at once. *)
Fixpoint process_loop (self : StatusPageMonitor) (initial : bool)
    (entries : list Entry) (new_seen : gmap string string) (w : World)
    : Outcome * gmap string string * World :=
  match entries with
  | [] => (Done, new_seen, w)
  | entry :: rest =>
      let '(incident, w1) := parse_incident entry w in
      let new_seen' := <[id incident := updated_key incident]> new_seen in
      if initial then
        match fire self incident w1 with
        | (None, w2) => process_loop self initial rest new_seen' w2
        | (Some e, w2) => (Raised e, new_seen', w2)
        end
      else
        match _seen_incidents self !! id incident with
        | None =>
            match fire self incident w1 with
            | (None, w2) => process_loop self initial rest new_seen' w2
            | (Some e, w2) => (Raised e, new_seen', w2)
            end
        | Some prev =>
            if bool_decide (prev ≠ updated_key incident) then
              match fire self incident w1 with
              | (None, w2) => process_loop self initial rest new_seen' w2
              | (Some e, w2) => (Raised e, new_seen', w2)
              end
            else process_loop self initial rest new_seen' w1
        end
  end.

(** [_process_entries]: the assignment [self._seen_incidents = new_seen]
    is reached only when the loop ends normally. *)
Definition _process_entries (self : StatusPageMonitor) (entries : list Entry)
    (initial : bool) (w : World) : Outcome * StatusPageMonitor * World :=
  match process_loop self initial entries ∅ w with
  | (Done, new_seen, w') => (Done, set_seen new_seen self, w')
  | (Raised e, _, w') => (Raised e, self, w')
  end.

(** The request headers built at the top of [_check_feed]: a validator
    is sent when it is neither [None] nor empty. *)
Definition request_headers (self : StatusPageMonitor) : gmap string string :=
  let headers : gmap string string := ∅ in
  let headers :=
    match _etag self with
    | Some e => if truthy e then <["If-None-Match" := e]> headers else headers
    | None => headers
    end in
  match _last_modified self with
  | Some m => if truthy m then <["If-Modified-Since" := m]> headers else headers
  | None => headers
  end.

(** [feedparser.parse(body)], recorded in the world. *)
Definition parse_feed (body : string) (w : World) : Feed * World :=
  (feedparser_parse body,
   {| clock_reads := clock_reads w; calls := calls w;
      parsed := parsed w ++ [body] |}).

(** [_check_feed].  The validators are assigned inside the [try],
    before the body is read; the [except] clause returns. *)
Definition _check_feed (self : StatusPageMonitor) (http_get : HttpGet)
    (initial : bool) (w : World) : Outcome * StatusPageMonitor * World :=
  match http_get (request_headers self) with
  | NetError _ => (Done, self, w)
  | Response status etag last_modified body_read =>
      if status =? 304 then (Done, self, w)
      else if negb (status =? 200) then (Done, self, w)
      else
        let self := set_validators etag last_modified self in
        match body_read with
        | BodyError _ => (Done, self, w)
        | BodyText body =>
            let '(feed, w) := parse_feed body w in
            match bozo feed, entries feed with
            | true, [] => (Done, self, w)
            | _, _ => _process_entries self (entries feed) initial w
            end
        end
  end.

(** The [while self._running] loop of [start] over a schedule. *)
Fixpoint poll_loop (self : StatusPageMonitor) (ticks : list Tick) (w : World)
    : RunState * StatusPageMonitor * World :=
  match ticks with
  | [] => (Running, self, w)
  | Stop :: _ => (Stopped, stop self, w)
  | Poll http_get :: rest =>
      match _check_feed self http_get false w with
      | (Done, self', w') => poll_loop self' rest w'
      | (Raised e, self', w') => (Crashed e, self', w')
      end
  end.

(** [start]: the first check is made with [initial=True], every later
    one with [initial=False]. *)
Definition start (self : StatusPageMonitor) (first : HttpGet)
    (ticks : list Tick) (w : World) : RunState * StatusPageMonitor * World :=
  let self := set_running true self in
  match _check_feed self first true w with
  | (Done, self', w') => poll_loop self' ticks w'
  | (Raised e, self', w') => (Crashed e, self', w')
  end.

End Model.

(* ===================================================================== *)
(** ** Notions used to state the properties *)
(* ===================================================================== *)

Section Notions.
Context `{Environment}.

(** The sequence of [parse_incident] calls a complete pass over the
    entries makes, in feed order. *)
Fixpoint normalize_entries (entries : list Entry) (w : World)
    : list IncidentUpdate * World :=
  match entries with
  | [] => ([], w)
  | entry :: rest =>
      let '(incident, w1) := parse_incident entry w in
      let '(incidents, w2) := normalize_entries rest w1 in
      (incident :: incidents, w2)
  end.

(** Normalization of a payload: [feedparser.parse] followed by
    [parse_incident] on each entry. *)
Definition normalize (body : string) (w : World) : list IncidentUpdate * World :=
  let '(feed, w1) := parse_feed body w in
  normalize_entries (entries feed) w1.

(** The snapshot obtained by writing each incident, in order, into
    [seen]. *)
Definition snapshot_into (seen : gmap string string)
    (incidents : list IncidentUpdate) : gmap string string :=
  fold_left (fun m i => <[id i := updated_key i]> m) incidents seen.

(** An incident differs from a snapshot: its identity is absent, or it
    is present with another stored value. *)
Definition changed (previous : gmap string string) (i : IncidentUpdate) : Prop :=
  previous !! id i = None
  ∨ ∃ prev, previous !! id i = Some prev ∧ prev ≠ updated_key i.

#[global] Instance changed_dec previous i : Decision (changed previous i).
Proof.
  unfold changed.
  destruct (previous !! id i) as [prev|] eqn:E.
  - destruct (decide (prev = updated_key i)) as [Heq|Hne].
    + right. intros [Hn | (p & Hp & Hd)]; [discriminate | ].
      injection Hp as <-. exact (Hd Heq).
    + left. right. exists prev. split; [reflexivity | exact Hne].
  - left. left. reflexivity.
Defined.

(** The decision the loop of [_process_entries] takes for one incident:
    the three places where it calls the callback. *)
Definition fires (initial : bool) (previous : gmap string string)
    (i : IncidentUpdate) : bool :=
  if initial then true
  else match previous !! id i with
       | None => true
       | Some prev => bool_decide (prev ≠ updated_key i)
       end.

(** The invocations that notify the given incidents for [self]. *)
Definition notifications (self : StatusPageMonitor)
    (incidents : list IncidentUpdate) : list Call :=
  (fun i => (name self, i)) <$> incidents.

(** The entry carries a timestamp of its own. *)
Definition has_timestamp (entry : Entry) : Prop :=
  is_Some (time_struct_of entry).

(** The fetch outcomes of the conditional fetcher, read off a request
    result: not modified; a transient failure (an error or time-out
    raised by the request or while its body is read, or a status that
    is neither 200 nor 304); success with a payload. *)
Inductive FetchOutcome :=
| NotModified
| TransientFailure
| Success (payload : string) (etag last_modified : option string).

Definition fetch_outcome (r : HttpResult) : FetchOutcome :=
  match r with
  | NetError _ => TransientFailure
  | Response status etag lm body_read =>
      if status =? 304 then NotModified
      else if negb (status =? 200) then TransientFailure
      else match body_read with
           | BodyError _ => TransientFailure
           | BodyText body => Success body etag lm
           end
  end.

(** The payload is not both malformed and empty: the cycle goes on to
    the change detection. *)
Definition parses (body : string) : bool :=
  negb (bozo (feedparser_parse body)
        && bool_decide (entries (feedparser_parse body) = [])).

(** The request led to a successful cycle: a payload was fetched and
    it parses. *)
Definition reached (r : HttpResult) : bool :=
  match fetch_outcome r with
  | Success body _ _ => parses body
  | _ => false
  end.

(** The server answers every request with status 200 and this body. *)
Definition serves (http_get : HttpGet) (body : string) : Prop :=
  ∀ headers, ∃ etag lm, http_get headers = Response 200 etag lm (BodyText body).

(** The request fails whatever headers are sent: no successful cycle. *)
Definition fails (http_get : HttpGet) : Prop :=
  ∀ headers, reached (http_get headers) = false.

(** Two monitors that notify alike: same name, same callback, same
    snapshot. *)
Definition same_detector (self self' : StatusPageMonitor) : Prop :=
  name self' = name self
  ∧ callback self' = callback self
  ∧ _seen_incidents self' = _seen_incidents self.

(** Two worlds with the same invocations and the same clock. *)
Definition same_observations (w w' : World) : Prop :=
  calls w' = calls w ∧ clock_reads w' = clock_reads w.

(** The monitor of the design: as [start], but the flag handed to the
    change detection is true exactly until a cycle has been
    successful. *)
Fixpoint design_loop (self : StatusPageMonitor) (first_pending : bool)
    (ticks : list Tick) (w : World) : RunState * StatusPageMonitor * World :=
  match ticks with
  | [] => (Running, self, w)
  | Stop :: _ => (Stopped, stop self, w)
  | Poll http_get :: rest =>
      match _check_feed self http_get first_pending w with
      | (Done, self', w') =>
          let success := reached (http_get (request_headers self)) in
          design_loop self' (first_pending && negb success) rest w'
      | (Raised e, self', w') => (Crashed e, self', w')
      end
  end.

Definition design_start (self : StatusPageMonitor) (first : HttpGet)
    (ticks : list Tick) (w : World) : RunState * StatusPageMonitor * World :=
  design_loop (set_running true self) true (Poll first :: ticks) w.

(** An incident is stale against the updated-at values seen so far: its
    identity is unknown, or the value seen for it is another one, earlier
    or later. *)
Definition stale (seen_at : gmap string datetime) (i : IncidentUpdate) : Prop :=
  seen_at !! id i = None
  ∨ ∃ t, seen_at !! id i = Some t ∧ (t < updated_at i ∨ updated_at i < t).

#[global] Instance stale_dec seen_at i : Decision (stale seen_at i).
Proof.
  unfold stale.
  destruct (seen_at !! id i) as [t|].
  - destruct (Z_lt_dec t (updated_at i)) as [Hlt|Hge].
    + left. right. exists t. split; [reflexivity | left; exact Hlt].
    + destruct (Z_lt_dec (updated_at i) t) as [Hgt|Hle].
      * left. right. exists t. split; [reflexivity | right; exact Hgt].
      * right. intros [Hn | (t' & Ht' & Hd)]; [discriminate|].
        injection Ht' as <-. destruct Hd as [Hd|Hd]; contradiction.
  - left. left. reflexivity.
Defined.

(** The updated-at value last observed for each identity, after the
    given incidents in order. *)
Definition timeline_into (seen_at : gmap string datetime)
    (incidents : list IncidentUpdate) : gmap string datetime :=
  fold_left (fun m i => <[id i := updated_at i]> m) incidents seen_at.

(** A check of a predicate on the [2 ^ k] integers from [lo] on. *)
Fixpoint all_pow2 (k : nat) (P : Z -> bool) (lo : Z) : bool :=
  match k with
  | O => P lo
  | S k' => all_pow2 k' P lo && all_pow2 k' P (lo + 2 ^ Z.of_nat k')
  end.

(** Day [r] of the cycle of 400 years: [ord2ymd] gives a date of the
    years 1 to 400 and [ymd2ord] gives the day back. *)
Definition cycle_ok (r : Z) : bool :=
  let '(yc, m, d) := ord2ymd (r + 1) in
  (1 <=? yc) && (yc <=? 400) && (1 <=? m) && (m <=? 12)
  && (1 <=? d) && (d <=? 31) && (ymd2ord yc m d =? r + 1).

(** The request is refused whatever headers are sent: it raises before
    any response, or the status is not 200 (304 included). *)
Definition refused (http_get : HttpGet) : Prop :=
  ∀ headers,
    match http_get headers with
    | NetError _ => True
    | Response status _ _ _ => status ≠ 200
    end.

(** What the snapshot remembers of an incident: its identity and the
    key of its updated-at value. *)
Definition seen_pair (i : IncidentUpdate) : string * string :=
  (id i, updated_key i).

(** The value of a conditional header for a stored validator: a
    validator that is [None] or empty is not sent. *)
Definition header_for (validator : option string) : option string :=
  match validator with
  | Some v => if truthy v then Some v else None
  | None => None
  end.

End Notions.

(* ===================================================================== *)
(** ** Sample data *)
(* ===================================================================== *)

Module Sample.

Definition mk_time (y mo d h mi s : Z) : struct_time :=
  {| tm_year := y; tm_mon := mo; tm_mday := d;
     tm_hour := h; tm_min := mi; tm_sec := s;
     tm_wday := 0; tm_yday := 307; tm_isdst := 0 |}.

Definition t1 : struct_time := mk_time 2025 11 3 14 0 0.
Definition t2 : struct_time := mk_time 2025 11 3 15 0 0.

(** An entry as the test-suite builds them. *)
Definition make_entry (i t : string) (updated : option struct_time) : Entry :=
  {| e_id := Some i;
     e_title := Some t;
     e_link := Some "https://status.openai.com/incidents/test123";
     e_updated_parsed := updated;
     e_published_parsed := updated;
     e_tags := Some [];
     e_content := Some [];
     e_summary := Some "We are investigating the issue." |}.

Definition inc1 : Entry := make_entry "inc1" "Incident 1" (Some t1).
Definition inc1_later : Entry := make_entry "inc1" "Incident 1" (Some t2).
Definition inc2 : Entry := make_entry "inc2" "Incident 2" (Some t1).
Definition undated : Entry := make_entry "inc3" "Incident 3" None.

(** A feed parser that knows four bodies and finds every other one
    malformed and empty. *)
Definition parse (body : string) : Feed :=
  if String.eqb body "v1" then {| bozo := false; entries := [inc1] |}
  else if String.eqb body "v2" then {| bozo := false; entries := [inc1; inc2] |}
  else if String.eqb body "undated" then {| bozo := false; entries := [undated] |}
  else if String.eqb body "empty" then {| bozo := false; entries := [] |}
  else {| bozo := true; entries := [] |}.

(** Text without markup reaches [handle_data] in one piece; the clock
    moves by one microsecond per reading. *)
Definition env : Environment :=
  {| html_data := fun s => [s];
     feedparser_parse := parse;
     wall_clock := fun n => fromtimestamp 1762180320 + 1 + Z.of_nat n |}.

Definition quiet : Callback := fun _ _ _ => None.

(** A callback that raises on the incident with the given identity. *)
Definition broken_on (i : string) : Callback :=
  fun _ incident _ =>
    if String.eqb (id incident) i then Some "sink failure" else None.

Definition monitor (cb : Callback) : StatusPageMonitor :=
  __init__ "Test" "http://example.com/feed.atom" (Some cb) 60.

(** A monitor that has seen [inc1] at [t1] and an incident that has
    left the feed since. *)
Definition known : StatusPageMonitor :=
  set_seen (<["inc1" := "2025-11-03T14:00:00+00:00"]>
            (<["old" := "2025-11-01T09:00:00+00:00"]> ∅))
           (monitor quiet).

(** The updated-at values behind the snapshot of [known]. *)
Definition known_at : gmap string datetime :=
  <["inc1" := fromtimestamp (timegm t1)]>
    (<["old" := fromtimestamp (timegm (mk_time 2025 11 1 9 0 0))]> ∅).

(** A monitor that has seen [inc1] at the later time [t2]. *)
Definition later_at : gmap string datetime :=
  <["inc1" := fromtimestamp (timegm t2)]> ∅.

Definition later : StatusPageMonitor :=
  set_seen (<["inc1" := "2025-11-03T15:00:00+00:00"]> ∅) (monitor quiet).

(** The identities of the incidents of a list of invocations. *)
Definition ids_of (cs : list Call) : list string :=
  (fun c : Call => id c.2) <$> cs.

(** A server that answers every request the same way. *)
Definition always (r : HttpResult) : HttpGet := fun _ => r.

Definition ok (body : string) : HttpResult :=
  Response 200 (Some "etag-1") None (BodyText body).

End Sample.

(* ===================================================================== *)
(** ** Properties *)
(* ===================================================================== *)

Local Open Scope list_scope.

(** *** Strings, and the calendar behind [isoformat] *)

Lemma append_cons c a b : (String c a ++ b)%string = String c (a ++ b)%string.
Proof. reflexivity. Qed.



Lemma append_length a b :
  String.length (a ++ b)%string = (String.length a + String.length b)%nat.
Proof. induction a as [|c a IH]; [done|]. rewrite append_cons. cbn. by rewrite IH. Qed.

Lemma append_inj_length a a' b b' :
  String.length a = String.length a' →
  (a ++ b)%string = (a' ++ b')%string → a = a' ∧ b = b'.
Proof.
  revert a'. induction a as [|c a IH]; intros [|c' a'] Hlen Heq; try done.
  rewrite !append_cons in Heq. injection Heq as -> Heq. injection Hlen as Hlen.
  destruct (IH a' Hlen Heq) as [-> ->]. done.
Qed.

Lemma digits_length k : ∀ z, String.length (digits k z) = k.
Proof.
  induction k as [|k IH]; intros z; [done|].
  cbn [digits]. rewrite append_length, IH. cbn. lia.
Qed.

Lemma digits_inj k : ∀ z1 z2,
  0 <= z1 < 10 ^ Z.of_nat k → 0 <= z2 < 10 ^ Z.of_nat k →
  digits k z1 = digits k z2 → z1 = z2.
Proof.
  induction k as [|k IH]; intros z1 z2 H1 H2 Heq.
  - cbn in H1, H2. lia.
  - rewrite Nat2Z.inj_succ, Z.pow_succ_r in H1, H2 by lia.
    cbn [digits] in Heq.
    apply append_inj_length in Heq as [Hhi Hlo]; [|by rewrite !digits_length].
    assert (Hd : ∀ z, 0 <= z < 10 * 10 ^ Z.of_nat k →
                      0 <= z / 10 < 10 ^ Z.of_nat k).
    { intros z Hz. split; [apply Z.div_pos; lia|].
      apply Z.div_lt_upper_bound; lia. }
    apply IH in Hhi; [| by apply Hd | by apply Hd].
    injection Hlo as Hlo.
    apply (f_equal nat_of_ascii) in Hlo.
    pose proof (Z.mod_pos_bound z1 10 ltac:(lia)).
    pose proof (Z.mod_pos_bound z2 10 ltac:(lia)).
    rewrite !nat_ascii_embedding in Hlo by lia.
    pose proof (Z.div_mod z1 10 ltac:(lia)).
    pose proof (Z.div_mod z2 10 ltac:(lia)).
    lia.
Qed.

Lemma all_pow2_spec k P : ∀ lo,
  all_pow2 k P lo = true → ∀ n, lo <= n < lo + 2 ^ Z.of_nat k → P n = true.
Proof.
  induction k as [|k IH]; intros lo Hall n Hn.
  - cbn in Hn. replace n with lo by lia. exact Hall.
  - cbn [all_pow2] in Hall. apply andb_true_iff in Hall as [H1 H2].
    rewrite Nat2Z.inj_succ, Z.pow_succ_r in Hn by lia.
    destruct (Z_lt_le_dec n (lo + 2 ^ Z.of_nat k)).
    + apply (IH lo H1). lia.
    + apply (IH _ H2). lia.
Qed.

Lemma cycle_checked r : 0 <= r < 146097 → cycle_ok r = true.
Proof.
  intros Hr.
  assert (Hall : all_pow2 18 (fun r => (146097 <=? r) || cycle_ok r) 0 = true)
    by (vm_cast_no_check (eq_refl true)).
  pose proof (all_pow2_spec 18 _ 0 Hall r) as Hc. cbv beta in Hc.
  destruct (146097 <=? r) eqn:E; [lia|].
  apply Hc. change (2 ^ Z.of_nat 18) with 262144. lia.
Qed.

Lemma ord2ymd_shift o :
  ord2ymd o
  = let '(yc, m, d) := ord2ymd ((o - 1) mod 146097 + 1) in
    (400 * ((o - 1) / 146097) + yc, m, d).
Proof.
  pose proof (Z.mod_pos_bound (o - 1) 146097 ltac:(lia)) as Hr.
  unfold ord2ymd. cbv zeta.
  replace ((o - 1) mod 146097 + 1 - 1) with ((o - 1) mod 146097) by lia.
  rewrite (Z.div_small ((o - 1) mod 146097) 146097),
    (Z.mod_small ((o - 1) mod 146097) 146097) by lia.
  set (r := (o - 1) mod 146097). set (q := (o - 1) / 146097).
  repeat match goal with
         | |- context [if ?b then _ else _] => destruct b
         end; f_equal; try f_equal; lia.
Qed.

Lemma ord2ymd_fields o y m d :
  ord2ymd o = (y, m, d) →
  1 <= m <= 12 ∧ 1 <= d <= 31
  ∧ ∃ yc, 1 <= yc <= 400 ∧ y = 400 * ((o - 1) / 146097) + yc
          ∧ ymd2ord yc m d = (o - 1) mod 146097 + 1.
Proof.
  rewrite ord2ymd_shift.
  pose proof (Z.mod_pos_bound (o - 1) 146097 ltac:(lia)) as Hr.
  pose proof (cycle_checked _ Hr) as Hc. unfold cycle_ok in Hc.
  destruct (ord2ymd ((o - 1) mod 146097 + 1)) as [[yc m'] d'].
  intros [= <- <- <-].
  repeat (apply andb_true_iff in Hc as [Hc ?]).
  split; [lia|]. split; [lia|]. exists yc. split_and!; lia.
Qed.

Lemma ord2ymd_inj o1 o2 : ord2ymd o1 = ord2ymd o2 → o1 = o2.
Proof.
  destruct (ord2ymd o1) as [[y m] d] eqn:E1. intros E2. symmetry in E2.
  apply ord2ymd_fields in E1 as (_ & _ & yc1 & Hy1 & -> & Ho1).
  apply ord2ymd_fields in E2 as (_ & _ & yc2 & Hy2 & Hy & Ho2).
  assert (yc1 = yc2 ∧ (o1 - 1) / 146097 = (o2 - 1) / 146097) as [-> Hq] by lia.
  rewrite Ho1 in Ho2.
  pose proof (Z.div_mod (o1 - 1) 146097 ltac:(lia)).
  pose proof (Z.div_mod (o2 - 1) 146097 ltac:(lia)).
  lia.
Qed.

Lemma append_cancel_l s x y : (s ++ x)%string = (s ++ y)%string → x = y.
Proof.
  induction s as [|c s IH]; [done|]. rewrite !append_cons. by intros [= ?%IH].
Qed.

Lemma clock_fields_inj r1 r2 :
  0 <= r1 < 86400 → 0 <= r2 < 86400 →
  r1 / 3600 = r2 / 3600 → r1 mod 3600 / 60 = r2 mod 3600 / 60 →
  r1 mod 60 = r2 mod 60 → r1 = r2.
Proof. intros. Z.to_euclidean_division_equations. lia. Qed.

(** [isoformat] tells any two datetimes apart. *)
Lemma isoformat_inj a b :
  valid_datetime a → valid_datetime b → isoformat a = isoformat b → a = b.
Proof.
  unfold valid_datetime, MINYEAR, MAXYEAR, datetime_year, isoformat.
  set (ra := a / 1000000 mod 86400). set (rb := b / 1000000 mod 86400).
  assert (Hra : 0 <= ra < 86400) by (apply Z.mod_pos_bound; lia).
  assert (Hrb : 0 <= rb < 86400) by (apply Z.mod_pos_bound; lia).
  assert (Hua : 0 <= a mod 1000000 < 1000000) by (apply Z.mod_pos_bound; lia).
  assert (Hub : 0 <= b mod 1000000 < 1000000) by (apply Z.mod_pos_bound; lia).
  destruct (ord2ymd (a / 1000000 / 86400 + EPOCH_ORD)) as [[ya ma] da] eqn:Ea.
  destruct (ord2ymd (b / 1000000 / 86400 + EPOCH_ORD)) as [[yb mb] db] eqn:Eb.
  cbn [fst]. intros Hya Hyb Heq.
  pose proof (ord2ymd_fields _ _ _ _ Ea) as (Hma & Hda & _).
  pose proof (ord2ymd_fields _ _ _ _ Eb) as (Hmb & Hdb & _).
  apply append_inj_length in Heq as [Hy Heq]; [|by rewrite !digits_length].
  apply append_cancel_l in Heq.
  apply append_inj_length in Heq as [Hm Heq]; [|by rewrite !digits_length].
  apply append_cancel_l in Heq.
  apply append_inj_length in Heq as [Hd Heq]; [|by rewrite !digits_length].
  apply append_cancel_l in Heq.
  apply append_inj_length in Heq as [Hh Heq]; [|by rewrite !digits_length].
  apply append_cancel_l in Heq.
  apply append_inj_length in Heq as [Hmi Heq]; [|by rewrite !digits_length].
  apply append_cancel_l in Heq.
  apply append_inj_length in Heq as [Hs Heq]; [|by rewrite !digits_length].
  apply digits_inj in Hy; [|change (10 ^ Z.of_nat 4) with 10000; lia..].
  apply digits_inj in Hm; [|change (10 ^ Z.of_nat 2) with 100; lia..].
  apply digits_inj in Hd; [|change (10 ^ Z.of_nat 2) with 100; lia..].
  apply digits_inj in Hh;
    [|change (10 ^ Z.of_nat 2) with 100; Z.to_euclidean_division_equations; lia..].
  apply digits_inj in Hmi;
    [|change (10 ^ Z.of_nat 2) with 100; Z.to_euclidean_division_equations; lia..].
  apply digits_inj in Hs;
    [|change (10 ^ Z.of_nat 2) with 100; Z.to_euclidean_division_equations; lia..].
  assert (Hus : a mod 1000000 = b mod 1000000).
  { destruct (a mod 1000000 =? 0) eqn:Za, (b mod 1000000 =? 0) eqn:Zb.
    - apply Z.eqb_eq in Za, Zb. lia.
    - apply (f_equal String.length) in Heq.
      rewrite !append_length, digits_length in Heq. cbn in Heq. lia.
    - apply (f_equal String.length) in Heq.
      rewrite !append_length, digits_length in Heq. cbn in Heq. lia.
    - apply append_inj_length in Heq as [Heq _];
        [|by rewrite !append_length, !digits_length].
      apply append_cancel_l in Heq.
      apply digits_inj in Heq; [done|change (10 ^ Z.of_nat 6) with 1000000; lia..]. }
  assert (Hday : a / 1000000 / 86400 = b / 1000000 / 86400).
  { subst. rewrite <- Eb in Ea. apply ord2ymd_inj in Ea. lia. }
  assert (Hrem : ra = rb) by (by apply clock_fields_inj).
  subst ra rb.
  pose proof (Z.div_mod a 1000000 ltac:(lia)).
  pose proof (Z.div_mod b 1000000 ltac:(lia)).
  pose proof (Z.div_mod (a / 1000000) 86400 ltac:(lia)).
  pose proof (Z.div_mod (b / 1000000) 86400 ltac:(lia)).
  lia.
Qed.

Section Properties.
Context `{Environment}.
Implicit Types (self : StatusPageMonitor) (w : World) (i : IncidentUpdate).

(** *** The loop of [_process_entries] *)

Lemma fires_initial previous i : fires true previous i = true.
Proof. reflexivity. Qed.

Lemma fires_changed previous i : fires false previous i ↔ changed previous i.
Proof.
  unfold fires, changed. destruct (previous !! id i) as [prev|]; simpl.
  - rewrite bool_decide_spec. split.
    + intros Hne. right. exists prev. done.
    + intros [Hn | (p & Hp & Hd)]; [done | congruence].
  - split; [by left | done].
Qed.

Lemma filter_fires_initial previous (incs : list IncidentUpdate) :
  filter (fires true previous) incs = incs.
Proof.
  induction incs as [|i incs IH]; [done|].
  rewrite filter_cons_True by done. by rewrite IH.
Qed.

Lemma parse_incident_frame entry w :
  calls (parse_incident entry w).2 = calls w
  ∧ parsed (parse_incident entry w).2 = parsed w.
Proof.
  unfold parse_incident, _parse_timestamp, datetime_now.
  destruct (time_struct_of entry); done.
Qed.

Lemma parse_incident_clock entry w w0 :
  clock_reads w0 = clock_reads w →
  (parse_incident entry w0).1 = (parse_incident entry w).1
  ∧ clock_reads (parse_incident entry w0).2 = clock_reads (parse_incident entry w).2.
Proof.
  intros E. unfold parse_incident, _parse_timestamp, datetime_now.
  destruct (time_struct_of entry); simpl; rewrite ?E; done.
Qed.

Lemma parse_incident_dated entry w :
  has_timestamp entry →
  ∀ w', (parse_incident entry w).1 = (parse_incident entry w').1
        ∧ (parse_incident entry w).2 = w.
Proof.
  intros [t Ht] w'. unfold parse_incident, _parse_timestamp. by rewrite Ht.
Qed.

Lemma fire_frame self i w :
  clock_reads (fire self i w).2 = clock_reads w
  ∧ parsed (fire self i w).2 = parsed w
  ∧ calls (fire self i w).2 = calls w ++ [(name self, i)]
  ∧ (fire self i w).1 = callback self (name self) i (calls w).
Proof. done. Qed.

Lemma process_loop_step self initial entry rest ns w :
  process_loop self initial (entry :: rest) ns w =
  let i := (parse_incident entry w).1 in
  let w1 := (parse_incident entry w).2 in
  let ns' := <[id i := updated_key i]> ns in
  if fires initial (_seen_incidents self) i then
    match (fire self i w1).1 with
    | None => process_loop self initial rest ns' (fire self i w1).2
    | Some e => (Raised e, ns', (fire self i w1).2)
    end
  else process_loop self initial rest ns' w1.
Proof.
  cbn [process_loop]. destruct (parse_incident entry w) as [i w1]. cbn [fst snd].
  unfold fires. destruct initial.
  - destruct (fire self i w1) as [[e|] w2]; done.
  - destruct (_seen_incidents self !! id i) as [prev|].
    + destruct (bool_decide (prev ≠ updated_key i)); [|done].
      destruct (fire self i w1) as [[e|] w2]; done.
    + destruct (fire self i w1) as [[e|] w2]; done.
Qed.

Lemma normalize_entries_step entry rest w :
  normalize_entries (entry :: rest) w =
  ((parse_incident entry w).1 :: (normalize_entries rest (parse_incident entry w).2).1,
   (normalize_entries rest (parse_incident entry w).2).2).
Proof.
  cbn [normalize_entries]. destruct (parse_incident entry w) as [i w1].
  cbn [fst snd]. destruct (normalize_entries rest w1); done.
Qed.

Lemma normalize_entries_clock entries : ∀ w w0,
  clock_reads w0 = clock_reads w →
  (normalize_entries entries w0).1 = (normalize_entries entries w).1
  ∧ clock_reads (normalize_entries entries w0).2
    = clock_reads (normalize_entries entries w).2.
Proof.
  induction entries as [|entry rest IH]; intros w w0 E; [done|].
  rewrite !normalize_entries_step. cbn [fst snd].
  destruct (parse_incident_clock entry w w0 E) as [-> E1].
  destruct (IH _ _ E1) as [-> ->]. done.
Qed.

Lemma process_loop_done self initial entries : ∀ ns w ns' w',
  process_loop self initial entries ns w = (Done, ns', w') →
  let incs := (normalize_entries entries w).1 in
  ns' = snapshot_into ns incs
  ∧ calls w' = calls w
      ++ notifications self (filter (fires initial (_seen_incidents self)) incs)
  ∧ clock_reads w' = clock_reads (normalize_entries entries w).2
  ∧ parsed w' = parsed w.
Proof.
  induction entries as [|entry rest IH]; intros ns w ns' w' Hrun.
  - cbn in Hrun. injection Hrun as <- <-. cbn. by rewrite app_nil_r.
  - rewrite process_loop_step in Hrun. cbn zeta in Hrun.
    rewrite normalize_entries_step. cbn [fst snd].
    destruct (parse_incident_frame entry w) as [Hc Hp].
    set (i := (parse_incident entry w).1) in *.
    set (w1 := (parse_incident entry w).2) in *.
    rewrite filter_cons.
    destruct (fires initial (_seen_incidents self) i) eqn:Hf.
    + destruct (fire self i w1).1 as [e|] eqn:Hfire; [done|].
      apply IH in Hrun as (-> & Hcalls & Hclock & Hparsed).
      destruct (fire_frame self i w1) as (Fc & Fp & Fcalls & _).
      destruct (normalize_entries_clock rest w1 (fire self i w1).2 Fc) as [En Ec].
      rewrite En in Hcalls. rewrite Hcalls, Fcalls, Hc.
      rewrite decide_True by done.
      rewrite Hclock, Ec, Hparsed, Fp, Hp. rewrite En.
      split_and!; try done. cbn. by rewrite <- app_assoc.
    + apply IH in Hrun as (-> & Hcalls & Hclock & Hparsed).
      rewrite decide_False by (by intros ?).
      rewrite Hcalls, Hclock, Hparsed, Hc, Hp. done.
Qed.

Lemma process_loop_quiet self initial entries :
  (∀ n i h, callback self n i h = None) →
  ∀ ns w, (process_loop self initial entries ns w).1.1 = Done.
Proof.
  intros Hq. induction entries as [|entry rest IH]; intros ns w; [done|].
  rewrite process_loop_step. cbn zeta.
  destruct (fires _ _ _); [|apply IH].
  destruct (fire_frame self (parse_incident entry w).1 (parse_incident entry w).2)
    as (_ & _ & _ & ->).
  rewrite Hq. apply IH.
Qed.

(** *** The snapshot written by a pass *)

Lemma snapshot_into_snoc seen incs i :
  snapshot_into seen (incs ++ [i])
  = <[id i := updated_key i]> (snapshot_into seen incs).
Proof. unfold snapshot_into. by rewrite fold_left_app. Qed.

Lemma lookup_snapshot_into_other seen incs k :
  k ∉ id <$> incs → snapshot_into seen incs !! k = seen !! k.
Proof.
  induction incs as [|i incs IH] using rev_ind; intros Hk; [done|].
  rewrite snapshot_into_snoc. rewrite fmap_app, elem_of_app in Hk.
  rewrite lookup_insert_ne.
  - apply IH. tauto.
  - intros <-. apply Hk. right. cbn. apply list_elem_of_singleton. done.
Qed.

Lemma lookup_snapshot_into_last seen l1 i l2 :
  id i ∉ id <$> l2 →
  snapshot_into seen (l1 ++ i :: l2) !! id i = Some (updated_key i).
Proof.
  intros Hlast. unfold snapshot_into. rewrite fold_left_app. cbn [fold_left].
  fold (snapshot_into seen l1).
  fold (snapshot_into (<[id i:=updated_key i]> (snapshot_into seen l1)) l2).
  rewrite lookup_snapshot_into_other by done. apply lookup_insert_eq.
Qed.

Lemma elem_of_dom_snapshot_into seen incs k :
  k ∈ dom (snapshot_into seen incs) ↔ k ∈ dom seen ∨ k ∈ id <$> incs.
Proof.
  induction incs as [|i incs IH] using rev_ind.
  - cbn. rewrite elem_of_nil. tauto.
  - rewrite snapshot_into_snoc, dom_insert_L, elem_of_union, elem_of_singleton.
    rewrite IH, fmap_app, elem_of_app. cbn. rewrite list_elem_of_singleton. tauto.
Qed.

(** *** [_process_entries] as a whole *)

Lemma process_entries_done self entries initial w self' w' :
  _process_entries self entries initial w = (Done, self', w') →
  let incs := (normalize_entries entries w).1 in
  self' = set_seen (snapshot_into ∅ incs) self
  ∧ calls w' = calls w
      ++ notifications self (filter (fires initial (_seen_incidents self)) incs)
  ∧ parsed w' = parsed w.
Proof.
  unfold _process_entries.
  destruct (process_loop self initial entries ∅ w) as [[[|e] ns] w1] eqn:Hrun;
    [|done].
  intros [= <- <-].
  apply process_loop_done in Hrun as (-> & Hcalls & _ & Hparsed). done.
Qed.


Lemma process_entries_quiet self entries initial w :
  (∀ n i h, callback self n i h = None) →
  (_process_entries self entries initial w).1.1 = Done.
Proof.
  intros Hq. unfold _process_entries.
  pose proof (process_loop_quiet self initial entries Hq ∅ w) as Hd.
  destruct (process_loop self initial entries ∅ w) as [[[|e] ns] w1]; done.
Qed.

Lemma process_entries_quiet_calls self entries initial w :
  (∀ n i h, callback self n i h = None) →
  calls (_process_entries self entries initial w).2
  = calls w
    ++ notifications self
         (filter (fires initial (_seen_incidents self))
                 (normalize_entries entries w).1).
Proof.
  intros Hq. pose proof (process_entries_quiet self entries initial w Hq) as Hd.
  destruct (_process_entries self entries initial w) as [[out self'] w'] eqn:Hrun.
  cbn in Hd. subst out. cbn [snd].
  by apply process_entries_done in Hrun as (_ & -> & _).
Qed.

(** *** Change detection *)

Lemma filter_ext_Forall {A} (P Q : A → Prop)
    `{!∀ x, Decision (P x), !∀ x, Decision (Q x)} (l : list A) :
  Forall (λ x, P x ↔ Q x) l → filter P l = filter Q l.
Proof.
  induction 1 as [|x l Hx _ IH]; [done|].
  rewrite !filter_cons, IH.
  destruct (decide (P x)), (decide (Q x)); tauto.
Qed.

(** The snapshot keeps, as keys, the updated-at values of the timeline. *)
Lemma snapshot_into_timeline incs : ∀ seen_at,
  snapshot_into (isoformat <$> seen_at) incs
  = isoformat <$> timeline_into seen_at incs.
Proof.
  induction incs as [|i incs IH]; intros seen_at; [done|].
  unfold snapshot_into, timeline_into. cbn [fold_left].
  unfold updated_key. rewrite <- fmap_insert. apply IH.
Qed.

(** Against a snapshot of keys, the loop fires for exactly the stale
    incidents: two datetimes have the same key only when they are the
    same. *)
Lemma fires_stale seen_at i :
  map_Forall (λ _ t, valid_datetime t) seen_at →
  valid_datetime (updated_at i) →
  fires false (isoformat <$> seen_at) i ↔ stale seen_at i.
Proof.
  intros Hseen Hi. unfold fires, stale, updated_key. rewrite lookup_fmap.
  destruct (seen_at !! id i) as [t|] eqn:E; cbn.
  - rewrite bool_decide_spec. split.
    + intros Hne. right. exists t. split; [done|].
      destruct (Z.lt_trichotomy t (updated_at i)) as [?|[->|?]]; tauto.
    + intros [Hn | (t' & [= <-] & Hd)]; [done|].
      intros Heq. apply isoformat_inj in Heq; [lia | by apply (Hseen _ _ E) | done].
  - split; [by left | done].
Qed.

(** C1.  In a cycle that is not the initial one and that completes, where
    the previous snapshot holds the keys of the updated-at values seen so
    far, the invocations made are exactly those for the incidents of the
    current sequence whose identity is absent from the snapshot or whose
    stored updated-at value differs from the one just computed, be it
    earlier or later, in feed order. *)
Theorem non_initial_cycle_notifies_changed self entries w self' w' seen_at :
  _seen_incidents self = isoformat <$> seen_at →
  map_Forall (λ _ t, valid_datetime t) seen_at →
  Forall (λ i, valid_datetime (updated_at i)) (normalize_entries entries w).1 →
  _process_entries self entries false w = (Done, self', w') →
  calls w'
  = calls w
    ++ notifications self
         (filter (stale seen_at) (normalize_entries entries w).1).
Proof.
  intros Hsnap Hseen Hcur (_ & -> & _)%process_entries_done.
  do 2 f_equal. rewrite Hsnap. apply filter_ext_Forall.
  eapply Forall_impl; [exact Hcur|]. intros i Hi. by apply fires_stale.
Qed.

(** C2.  In an initial cycle that completes, the invocations made are
    one per incident of the current sequence, in feed order, whatever the
    previous snapshot holds. *)
Theorem initial_cycle_notifies_all self entries w self' w' :
  _process_entries self entries true w = (Done, self', w') →
  calls w' = calls w ++ notifications self (normalize_entries entries w).1.
Proof.
  intros (_ & -> & _)%process_entries_done.
  by rewrite filter_fires_initial.
Qed.

Lemma notification_identity self (incs : list IncidentUpdate) (c : Call) :
  c ∈ notifications self incs → c.1 = name self ∧ c.2 ∈ incs.
Proof.
  unfold notifications. intros (i & -> & Hi)%list_elem_of_fmap. done.
Qed.

(** C3.  When a cycle completes, the snapshot it leaves is rebuilt from
    the current sequence alone: it holds the key of the updated-at value
    last observed for each identity of the sequence and nothing else.
    For an identity that occurs more than once the value kept is that of
    the last occurrence, and the key stored stands for no other
    datetime.  An identity known only to the previous snapshot is absent
    from the new one and no invocation of the cycle is for it. *)
Theorem snapshot_rebuilt_from_current self entries initial w self' w' :
  _process_entries self entries initial w = (Done, self', w') →
  let current := (normalize_entries entries w).1 in
  let snapshot := _seen_incidents self' in
  snapshot = isoformat <$> timeline_into ∅ current
  ∧ (∀ k, k ∈ dom snapshot ↔ k ∈ id <$> current)
  ∧ (∀ l1 i l2, current = l1 ++ i :: l2 → id i ∉ id <$> l2 →
       snapshot !! id i = Some (isoformat (updated_at i))
       ∧ ∀ t, valid_datetime (updated_at i) → valid_datetime t →
              snapshot !! id i = Some (isoformat t) → t = updated_at i)
  ∧ (∀ k, k ∈ dom (_seen_incidents self) → k ∉ id <$> current →
       snapshot !! k = None
       ∧ ∀ c, c ∈ drop (length (calls w)) (calls w') → id c.2 ≠ k).
Proof.
  intros Hrun current snapshot.
  apply process_entries_done in Hrun as (-> & Hcalls & _).
  subst snapshot. cbn [set_seen _seen_incidents]. fold current in Hcalls |- *.
  split_and!.
  - rewrite <- snapshot_into_timeline. by rewrite fmap_empty.
  - intros k. rewrite elem_of_dom_snapshot_into, dom_empty_L.
    rewrite elem_of_empty. tauto.
  - intros l1 i l2 -> Hlast.
    pose proof (lookup_snapshot_into_last ∅ l1 i l2 Hlast) as Hl.
    split; [exact Hl|].
    intros t Hi Ht Hstored. rewrite Hl in Hstored. injection Hstored as Hkey.
    symmetry. by apply isoformat_inj.
  - intros k _ Hk. split.
    + rewrite lookup_snapshot_into_other by done. apply lookup_empty.
    + intros c. rewrite Hcalls, drop_app_length.
      intros [_ Hc]%notification_identity <-.
      apply list_elem_of_filter in Hc as [_ Hc].
      apply Hk. by apply list_elem_of_fmap_2.
Qed.

(** C10.  Over two consecutive non-initial cycles that complete: an
    identity missing from the first is missing from the snapshot it
    leaves, and an incident with that identity in the second is notified,
    whatever updated-at value it carries and whatever the snapshot held
    before the first; and a cycle over zero entries leaves the empty
    snapshot and makes no invocation. *)
Theorem forgotten_incident_is_new_again self entries1 entries2 w self1 w1 self2 w2 :
  _process_entries self entries1 false w = (Done, self1, w1) →
  _process_entries self1 entries2 false w1 = (Done, self2, w2) →
  (∀ i, i ∈ (normalize_entries entries2 w1).1 →
        id i ∉ id <$> (normalize_entries entries1 w).1 →
        _seen_incidents self1 !! id i = None
        ∧ (name self, i) ∈ drop (length (calls w1)) (calls w2))
  ∧ _process_entries self [] false w = (Done, set_seen ∅ self, w).
Proof.
  intros (-> & _ & _)%process_entries_done (_ & Hcalls & _)%process_entries_done.
  split; [|done]. intros i Hi Hgone.
  assert (Hnone : snapshot_into ∅ (normalize_entries entries1 w).1 !! id i = None).
  { rewrite lookup_snapshot_into_other by done. apply lookup_empty. }
  split; [exact Hnone|].
  rewrite Hcalls, drop_app_length. cbn [set_seen _seen_incidents name].
  unfold notifications. apply list_elem_of_fmap_2.
  apply list_elem_of_filter. split; [|done].
  unfold fires. by rewrite Hnone.
Qed.

(** *** Errors raised by the callback *)

(** The loop up to the first invocation that raises: when the callback
    returns on every incident the loop fires for before [i] and raises
    on [i], the loop ends there with that error. *)
Lemma process_loop_raises self initial : ∀ pre entries ns w i post e,
  (normalize_entries entries w).1 = pre ++ i :: post →
  fires initial (_seen_incidents self) i = true →
  (∀ pre1 j pre2, pre = pre1 ++ j :: pre2 →
     fires initial (_seen_incidents self) j = true →
     callback self (name self) j
       (calls w ++ notifications self
                     (filter (fires initial (_seen_incidents self)) pre1))
     = None) →
  callback self (name self) i
    (calls w ++ notifications self
                  (filter (fires initial (_seen_incidents self)) pre))
  = Some e →
  ∃ ns' w',
    process_loop self initial entries ns w = (Raised e, ns', w')
    ∧ calls w' = calls w
        ++ notifications self (filter (fires initial (_seen_incidents self)) pre)
        ++ [(name self, i)]
    ∧ parsed w' = parsed w.
Proof.
  induction pre as [|j pre IH]; intros entries ns w i post e Hn Hi Hpre Hraise.
  - destruct entries as [|entry rest]; [done|].
    rewrite normalize_entries_step in Hn. cbn [fst app] in Hn.
    injection Hn as Hentry _.
    rewrite process_loop_step. cbn zeta. rewrite Hentry, Hi.
    destruct (parse_incident_frame entry w) as [Hc Hp].
    destruct (fire_frame self i (parse_incident entry w).2) as (_ & Fp & Fcalls & ->).
    rewrite filter_nil in Hraise. cbn in Hraise. rewrite app_nil_r in Hraise.
    rewrite Hc, Hraise. eexists _, _. split; [reflexivity|].
    rewrite Fcalls, Fp, Hc, Hp, filter_nil. done.
  - destruct entries as [|entry rest]; [done|].
    rewrite normalize_entries_step in Hn. cbn [fst app] in Hn.
    injection Hn as Hentry Hrest.
    rewrite process_loop_step. cbn zeta. rewrite Hentry.
    destruct (parse_incident_frame entry w) as [Hc Hp].
    set (w1 := (parse_incident entry w).2) in *.
    rewrite filter_cons in Hraise |- *.
    destruct (fires initial (_seen_incidents self) j) eqn:Hj.
    + rewrite decide_True in Hraise |- * by (by apply Is_true_true).
      destruct (fire_frame self j w1) as (Fc & Fp & Fcalls & ->).
      pose proof (Hpre [] j pre eq_refl Hj) as Hj0.
      rewrite filter_nil in Hj0. cbn in Hj0. rewrite app_nil_r in Hj0.
      rewrite Hc, Hj0.
      destruct (normalize_entries_clock rest w1 (fire self j w1).2 Fc) as [En _].
      destruct (IH rest (<[id j:=updated_key j]> ns) (fire self j w1).2 i post e)
        as (ns' & w' & -> & Hcalls & Hparsed); try done.
      * by rewrite En.
      * intros pre1 k pre2 -> Hk. rewrite Fcalls, Hc, <- app_assoc.
        specialize (Hpre (j :: pre1) k pre2 eq_refl Hk).
        rewrite filter_cons, decide_True in Hpre by (by apply Is_true_true).
        exact Hpre.
      * rewrite Fcalls, Hc, <- app_assoc. exact Hraise.
      * eexists _, _. split; [reflexivity|].
        rewrite Hcalls, Hparsed, Fcalls, Fp, Hc, Hp, <- app_assoc. done.
    + rewrite decide_False in Hraise |- * by (intros Hf%Is_true_true; congruence).
      destruct (IH rest (<[id j:=updated_key j]> ns) w1 i post e)
        as (ns' & w' & -> & Hcalls & Hparsed); try done.
      * intros pre1 k pre2 -> Hk. rewrite Hc.
        specialize (Hpre (j :: pre1) k pre2 eq_refl Hk).
        rewrite filter_cons, decide_False in Hpre
          by (intros Hf%Is_true_true; congruence).
        exact Hpre.
      * by rewrite Hc.
      * eexists _, _. split; [reflexivity|]. by rewrite Hcalls, Hparsed, Hc, Hp.
Qed.

(** C5, as the code has it.  When the callback raises while notifying a
    selected incident (having returned for the selected incidents before
    it), the error is not isolated: the cycle ends at that invocation,
    so that no later incident of the cycle is notified; the snapshot
    keeps its previous value while the validators of the response stay
    stored; and the error leaves the loop of [start], which ends without
    running any later cycle. *)
Theorem sink_failure_ends_the_run
    self http_get initial w etag lm body pre i post e :
  http_get (request_headers self) = Response 200 etag lm (BodyText body) →
  (normalize body w).1 = pre ++ i :: post →
  fires initial (_seen_incidents self) i = true →
  (∀ pre1 j pre2, pre = pre1 ++ j :: pre2 →
     fires initial (_seen_incidents self) j = true →
     callback self (name self) j
       (calls w ++ notifications self
                     (filter (fires initial (_seen_incidents self)) pre1))
     = None) →
  callback self (name self) i
    (calls w ++ notifications self
                  (filter (fires initial (_seen_incidents self)) pre))
  = Some e →
  ∃ self' w',
    _check_feed self http_get initial w = (Raised e, self', w')
    ∧ calls w' = calls w
        ++ notifications self (filter (fires initial (_seen_incidents self)) pre)
        ++ [(name self, i)]
    ∧ _seen_incidents self' = _seen_incidents self
    ∧ _etag self' = etag ∧ _last_modified self' = lm
    ∧ (initial = false →
       ∀ ticks, poll_loop self (Poll http_get :: ticks) w = (Crashed e, self', w'))
    ∧ (initial = true →
       ∀ self0 ticks, self = set_running true self0 →
         start self0 http_get ticks w = (Crashed e, self', w')).
Proof.
  intros Hget Hn Hi Hpre Hraise.
  unfold normalize in Hn. cbn [parse_feed] in Hn.
  set (w1 := {| clock_reads := clock_reads w; calls := calls w;
                parsed := parsed w ++ [body] |}) in *.
  destruct (process_loop_raises (set_validators etag lm self) initial pre
              (entries (feedparser_parse body)) ∅ w1 i post e Hn Hi Hpre Hraise)
    as (ns' & w' & Hloop & Hcalls & _).
  assert (Hcycle : _check_feed self http_get initial w
                   = (Raised e, set_validators etag lm self, w')).
  { unfold _check_feed. rewrite Hget. cbn [Z.eqb Pos.eqb negb parse_feed].
    fold w1.
    destruct (entries (feedparser_parse body)) as [|entry rest] eqn:He;
      [by destruct pre|].
    unfold _process_entries. rewrite Hloop.
    by destruct (bozo (feedparser_parse body)). }
  exists (set_validators etag lm self), w'.
  split_and!; try done.
  - intros -> ticks. cbn [poll_loop]. by rewrite Hcycle.
  - intros -> self0 ticks ->. unfold start. by rewrite Hcycle.
Qed.

(** *** Fetch outcomes *)

Lemma process_entries_fields self entries initial w :
  let self' := (_process_entries self entries initial w).1.2 in
  name self' = name self ∧ callback self' = callback self
  ∧ _etag self' = _etag self ∧ _last_modified self' = _last_modified self
  ∧ _running self' = _running self.
Proof.
  unfold _process_entries.
  destruct (process_loop self initial entries ∅ w) as [[[|e] ns] w1]; done.
Qed.

(** A request that raises before any response, or is answered with a
    status other than 200, leaves the monitor and the world as they
    were: nothing is parsed, nothing is notified. *)
Lemma refused_fetch_changes_nothing self http_get initial w :
  match http_get (request_headers self) with
  | NetError _ => True
  | Response status _ _ _ => status ≠ 200
  end →
  _check_feed self http_get initial w = (Done, self, w).
Proof.
  unfold _check_feed.
  destruct (http_get (request_headers self)) as [r|st et lm b]; [done|].
  intros Hst. destruct (st =? 304); [done|].
  destruct (st =? 200) eqn:E; [|done]. apply Z.eqb_eq in E. done.
Qed.

(** A body that cannot be read after a status 200: the cycle stops
    there, with the validators of the response already stored. *)
Lemma unread_body_moves_validators self http_get initial w etag lm reason :
  http_get (request_headers self) = Response 200 etag lm (BodyError reason) →
  _check_feed self http_get initial w = (Done, set_validators etag lm self, w).
Proof. unfold _check_feed. by intros ->. Qed.

(** C8.  A response with status 200 whose payload is malformed and
    holds no entry: the cycle ends normally, the snapshot is the
    previous one, no invocation is made, and the loop goes on with the
    next tick. *)
Theorem malformed_empty_payload_is_noop self http_get initial w etag lm body :
  http_get (request_headers self) = Response 200 etag lm (BodyText body) →
  bozo (feedparser_parse body) = true →
  entries (feedparser_parse body) = [] →
  let cycle := _check_feed self http_get initial w in
  cycle.1.1 = Done
  ∧ _seen_incidents cycle.1.2 = _seen_incidents self
  ∧ calls cycle.2 = calls w
  ∧ ∀ ticks, poll_loop self (Poll http_get :: ticks) w
             = poll_loop (set_validators etag lm self) ticks (parse_feed body w).2.
Proof.
  intros Hget Hbozo Hnil. cbn zeta.
  assert (Hcycle : ∀ b, _check_feed self http_get b w
                        = (Done, set_validators etag lm self, (parse_feed body w).2)).
  { intros b. unfold _check_feed. rewrite Hget. cbn [Z.eqb Pos.eqb negb parse_feed].
    by rewrite Hbozo, Hnil. }
  rewrite Hcycle. split_and!; try done.
  intros ticks. cbn [poll_loop]. by rewrite Hcycle.
Qed.

(** C9.  After a response with status 200 both validators are the ones
    of that response, absent where the response has none, whatever
    becomes of the body, of the parse and of the notifications. *)
Theorem success_replaces_validators self http_get initial w etag lm body_read :
  http_get (request_headers self) = Response 200 etag lm body_read →
  let self' := (_check_feed self http_get initial w).1.2 in
  _etag self' = etag ∧ _last_modified self' = lm.
Proof.
  intros Hget. cbn zeta. unfold _check_feed. rewrite Hget.
  cbn [Z.eqb Pos.eqb negb]. destruct body_read as [body|reason]; [|done].
  cbn [parse_feed].
  destruct (bozo (feedparser_parse body)), (entries (feedparser_parse body));
    try done;
    match goal with
    | |- context [_process_entries ?m ?es ?b ?w0] =>
        destruct (process_entries_fields m es b w0) as (_ & _ & -> & -> & _)
    end; done.
Qed.

(** *** Normalization *)

Lemma normalize_entries_dated entries w :
  Forall has_timestamp entries →
  normalize_entries entries w
  = ((fun entry => (parse_incident entry world0).1) <$> entries, w).
Proof.
  induction 1 as [|entry rest Hd _ IH]; [done|].
  rewrite normalize_entries_step.
  destruct (parse_incident_dated entry w Hd world0) as [-> ->].
  by rewrite IH.
Qed.


(** *** The initial flag *)

Lemma fires_empty initial i : fires initial ∅ i = true.
Proof. unfold fires. destruct initial; [done|]. by rewrite lookup_empty. Qed.

Lemma process_loop_flag_irrelevant self entries :
  _seen_incidents self = ∅ →
  ∀ ns w, process_loop self true entries ns w
          = process_loop self false entries ns w.
Proof.
  intros Hempty. induction entries as [|entry rest IH]; intros ns w; [done|].
  rewrite !process_loop_step. cbn zeta. rewrite Hempty, !fires_empty.
  destruct (fire self _ _).1; [done|]. apply IH.
Qed.

Lemma check_feed_flag_irrelevant self http_get w :
  _seen_incidents self = ∅ →
  _check_feed self http_get true w = _check_feed self http_get false w.
Proof.
  intros Hempty. unfold _check_feed.
  destruct (http_get (request_headers self)) as [r|st et lm [body|r]]; try done.
  destruct (st =? 304); [done|]. destruct (negb (st =? 200)); [done|].
  cbn [parse_feed]. unfold _process_entries.
  rewrite process_loop_flag_irrelevant by done. done.
Qed.

Lemma check_feed_not_reached self http_get initial w :
  reached (http_get (request_headers self)) = false →
  ∃ self' w',
    _check_feed self http_get initial w = (Done, self', w')
    ∧ same_detector self self' ∧ same_observations w w'.
Proof.
  unfold reached, fetch_outcome, _check_feed, parses.
  destruct (http_get (request_headers self)) as [r|st et lm [body|r]].
  - intros _. by exists self, w.
  - destruct (st =? 304); [intros _; by exists self, w|].
    destruct (negb (st =? 200)); [intros _; by exists self, w|].
    cbn [parse_feed]. intros Hr.
    apply negb_false_iff, andb_true_iff in Hr as [-> Hnil].
    apply bool_decide_eq_true in Hnil. rewrite Hnil.
    eexists _, _. split; [reflexivity|]. done.
  - destruct (st =? 304); [intros _; by exists self, w|].
    destruct (negb (st =? 200)); [intros _; by exists self, w|].
    intros _. eexists _, _. split; [reflexivity|]. done.
Qed.

Lemma poll_loop_refines_design ticks : ∀ self w (pending : bool),
  (pending = true → _seen_incidents self = ∅) →
  poll_loop self ticks w = design_loop self pending ticks w.
Proof.
  induction ticks as [|[http_get|] rest IH]; intros self w pending Hp; [done| |done].
  cbn [poll_loop design_loop].
  assert (Hsame : _check_feed self http_get pending w
                  = _check_feed self http_get false w).
  { destruct pending; [|done]. by apply check_feed_flag_irrelevant, Hp. }
  rewrite Hsame.
  destruct (_check_feed self http_get false w) as [[[|e] self'] w'] eqn:Hrun;
    [|done].
  apply IH. intros [-> Hnot]%andb_true_iff. apply negb_true_iff in Hnot.
  destruct (check_feed_not_reached self http_get false w Hnot)
    as (s1 & w1 & Hrun1 & (_ & _ & Hseen) & _).
  rewrite Hrun in Hrun1. injection Hrun1 as <- <-.
  rewrite Hseen. by apply Hp.
Qed.

Lemma notifications_same_name self self' incs :
  name self' = name self → notifications self' incs = notifications self incs.
Proof. unfold notifications. by intros ->. Qed.

Lemma poll_loop_failing_prefix failing : ∀ self w rest,
  Forall fails failing →
  ∃ self' w',
    poll_loop self ((Poll <$> failing) ++ rest) w = poll_loop self' rest w'
    ∧ same_detector self self' ∧ same_observations w w'.
Proof.
  induction failing as [|f failing IH]; intros self w rest Hall.
  - by exists self, w.
  - apply Forall_cons in Hall as [Hf Hall].
    destruct (check_feed_not_reached self f false w (Hf _))
      as (s1 & w1 & Hrun & (Hn & Hc & Hs) & (Hcalls & Hclock)).
    destruct (IH s1 w1 rest Hall)
      as (s2 & w2 & Hloop & (Hn2 & Hc2 & Hs2) & (Hcalls2 & Hclock2)).
    exists s2, w2. cbn [fmap list_fmap app poll_loop]. rewrite Hrun.
    split; [exact Hloop|]. unfold same_detector, same_observations.
    by rewrite Hn2, Hc2, Hs2, Hcalls2, Hclock2.
Qed.

Lemma check_feed_first_success self http_get initial w body :
  (∀ n i h, callback self n i h = None) →
  _seen_incidents self = ∅ →
  serves http_get body → parses body = true →
  ∃ self' w',
    _check_feed self http_get initial w = (Done, self', w')
    ∧ calls w' = calls w
        ++ notifications self
             (normalize_entries (entries (feedparser_parse body)) w).1.
Proof.
  intros Hq Hempty Hserves Hparses.
  destruct (Hserves (request_headers self)) as (et & lm & Hget).
  assert (Hcheck : _check_feed self http_get initial w
                   = _process_entries (set_validators et lm self)
                       (entries (feedparser_parse body)) initial
                       (parse_feed body w).2).
  { unfold _check_feed. rewrite Hget. cbn [Z.eqb Pos.eqb negb parse_feed snd].
    unfold parses in Hparses.
    destruct (bozo (feedparser_parse body)),
      (entries (feedparser_parse body)); done. }
  rewrite Hcheck.
  pose proof (process_entries_quiet (set_validators et lm self)
                (entries (feedparser_parse body)) initial
                (parse_feed body w).2 Hq) as Hd.
  pose proof (process_entries_quiet_calls (set_validators et lm self)
                (entries (feedparser_parse body)) initial
                (parse_feed body w).2 Hq) as Hcalls.
  destruct (_process_entries _ _ _ _) as [[out self'] w']. cbn [fst snd] in *.
  subst out. exists self', w'. split; [done|].
  rewrite Hcalls. cbn [set_validators _seen_incidents parse_feed snd calls].
  rewrite Hempty.
  destruct (normalize_entries_clock (entries (feedparser_parse body)) w
              {| clock_reads := clock_reads w; calls := calls w;
                 parsed := parsed w ++ [body] |} eq_refl) as [-> _].
  f_equal. unfold notifications. cbn [name set_validators]. f_equal.
  clear. induction (normalize_entries _ _).1 as [|i l IH]; [done|].
  rewrite filter_cons_True by (by rewrite fires_empty). by rewrite IH.
Qed.

(** C7.  For a monitor that starts with an empty snapshot, [start]
    behaves on every schedule as the monitor that hands the change
    detection a true initial flag exactly until a cycle has been
    successful; and when the first request and any number of later ones
    fail, the first cycle that succeeds notifies every incident of its
    feed, in feed order (the callback returning normally). *)
Theorem initial_flag_follows_first_success self w :
  _seen_incidents self = ∅ →
  (∀ first ticks, start self first ticks w = design_start self first ticks w)
  ∧ (∀ first failing http_get body,
       (∀ n i h, callback self n i h = None) →
       fails first → Forall fails failing →
       serves http_get body → parses body = true →
       let run := start self first (Poll <$> (failing ++ [http_get])) w in
       run.1.1 = Running
       ∧ calls run.2
         = calls w
           ++ notifications self
                (normalize_entries (entries (feedparser_parse body)) w).1).
Proof.
  intros Hempty. split.
  - intros first ticks. unfold start, design_start. cbn [design_loop].
    destruct (_check_feed (set_running true self) first true w)
      as [[[|e] self'] w'] eqn:Hrun; [|done].
    apply poll_loop_refines_design. cbn [andb].
    intros Hnot%negb_true_iff.
    destruct (check_feed_not_reached (set_running true self) first true w Hnot)
      as (s1 & w1 & Hrun1 & (_ & _ & Hseen) & _).
    rewrite Hrun in Hrun1. injection Hrun1 as <- <-. by rewrite Hseen.
  - intros first failing http_get body Hq Hfirst Hfailing Hserves Hparses.
    cbn zeta. unfold start.
    destruct (check_feed_not_reached (set_running true self) first true w
                (Hfirst _))
      as (s1 & w1 & -> & (Hn1 & Hc1 & Hs1) & (Hcalls1 & Hclock1)).
    rewrite fmap_app.
    destruct (poll_loop_failing_prefix failing s1 w1 (Poll <$> [http_get]) Hfailing)
      as (s2 & w2 & -> & (Hn2 & Hc2 & Hs2) & (Hcalls2 & Hclock2)).
    cbn [fmap list_fmap poll_loop].
    destruct (check_feed_first_success s2 http_get false w2 body)
      as (s3 & w3 & -> & Hcalls3); try done.
    + intros n i h. rewrite Hc2, Hc1. apply Hq.
    + by rewrite Hs2, Hs1.
    + cbn [fst snd]. split; [done|].
      rewrite Hcalls3, Hcalls2, Hcalls1.
      rewrite (notifications_same_name self s2) by (by rewrite Hn2, Hn1).
      destruct (normalize_entries_clock (entries (feedparser_parse body)) w w2)
        as [-> _]; [by rewrite Hclock2, Hclock1|]. done.
Qed.

End Properties.

(* ===================================================================== *)
(** ** The properties on the sample data *)
(* ===================================================================== *)

Lemma non_initial_cycle_notifies_changed_witness :
  ∃ self' w',
    _seen_incidents Sample.later = isoformat <$> Sample.later_at
    ∧ map_Forall (λ _ t, valid_datetime t) Sample.later_at
    ∧ Forall (λ i, valid_datetime (updated_at i))
        (@normalize_entries Sample.env
           [Sample.inc1; Sample.inc1_later; Sample.inc2] world0).1
    ∧ @_process_entries Sample.env Sample.later
        [Sample.inc1; Sample.inc1_later; Sample.inc2] false world0
      = (Done, self', w')
    ∧ calls w'
      = notifications Sample.later
          (filter (stale Sample.later_at)
                  (@normalize_entries Sample.env
                     [Sample.inc1; Sample.inc1_later; Sample.inc2] world0).1)
    ∧ (λ c : Call, seen_pair c.2) <$> calls w'
      = [("inc1", "2025-11-03T14:00:00+00:00");
         ("inc2", "2025-11-03T14:00:00+00:00")]%string.
Proof.
  assert (Hsnap : _seen_incidents Sample.later = isoformat <$> Sample.later_at)
    by (vm_compute; reflexivity).
  assert (Hseen : map_Forall (λ _ t, valid_datetime t) Sample.later_at)
    by (apply (bool_decide_unpack _); vm_compute; exact I).
  assert (Hcur : Forall (λ i, valid_datetime (updated_at i))
                   (@normalize_entries Sample.env
                      [Sample.inc1; Sample.inc1_later; Sample.inc2] world0).1)
    by (apply (bool_decide_unpack _); vm_compute; exact I).
  eexists _, _. split; [exact Hsnap|]. split; [exact Hseen|].
  split; [exact Hcur|]. split; [vm_compute; reflexivity|].
  split; [|vm_compute; reflexivity].
  exact (@non_initial_cycle_notifies_changed Sample.env Sample.later
           [Sample.inc1; Sample.inc1_later; Sample.inc2] world0 _ _
           Sample.later_at Hsnap Hseen Hcur eq_refl).
Defined.

Lemma initial_cycle_notifies_all_witness :
  ∃ self' w',
    @_process_entries Sample.env Sample.known
      [Sample.inc1; Sample.inc2] true world0
    = (Done, self', w')
    ∧ calls w'
      = notifications Sample.known
          (@normalize_entries Sample.env [Sample.inc1; Sample.inc2] world0).1.
Proof.
  eexists _, _. split; [vm_compute; reflexivity|].
  exact (@initial_cycle_notifies_all Sample.env Sample.known
           [Sample.inc1; Sample.inc2] world0 _ _ eq_refl).
Defined.

Lemma snapshot_rebuilt_from_current_witness :
  ∃ self' w',
    @_process_entries Sample.env Sample.known
      [Sample.inc1; Sample.inc1_later; Sample.inc2] false world0
    = (Done, self', w')
    ∧ _seen_incidents self'
      = <["inc2" := "2025-11-03T14:00:00+00:00"]>
          (<["inc1" := "2025-11-03T15:00:00+00:00"]> ∅)
    ∧ _seen_incidents self' !! "inc1"
      = Some (isoformat (fromtimestamp (timegm Sample.t2)))
    ∧ _seen_incidents self' !! "inc1"
      ≠ Some (isoformat (fromtimestamp (timegm Sample.t1)))
    ∧ _seen_incidents self' !! "old" = None.
Proof.
  eexists _, _. split; [vm_compute; reflexivity|].
  split; [vm_compute; reflexivity|].
  pose proof (@snapshot_rebuilt_from_current Sample.env Sample.known
                [Sample.inc1; Sample.inc1_later; Sample.inc2] false world0
                _ _ eq_refl) as (_ & _ & Hlast & Hgone).
  assert (Hnot : "inc1"%string ∉ id <$> [(@parse_incident Sample.env Sample.inc2
                                             world0).1]).
  { vm_compute. intros Hin%list_elem_of_In. destruct Hin as [? | []]. discriminate. }
  destruct (Hlast [_] _ [_] eq_refl Hnot) as [Hstored Honly].
  split; [exact Hstored|]. split.
  - intros Hfirst. apply Honly in Hfirst.
    + vm_compute in Hfirst. discriminate.
    + apply (bool_decide_unpack _). vm_compute. exact I.
    + apply (bool_decide_unpack _). vm_compute. exact I.
  - apply Hgone.
    + vm_compute. reflexivity.
    + vm_compute. intros Hin%list_elem_of_In.
      destruct Hin as [?|[?|[?|[]]]]; discriminate.
Defined.

Lemma forgotten_incident_is_new_again_witness :
  ∃ self1 w1 self2 w2,
    @_process_entries Sample.env Sample.known [Sample.inc2] false world0
    = (Done, self1, w1)
    ∧ @_process_entries Sample.env self1 [Sample.inc1] false w1 = (Done, self2, w2)
    ∧ _seen_incidents Sample.known !! "inc1" = Some "2025-11-03T14:00:00+00:00"
    ∧ _seen_incidents self1 !! "inc1" = None
    ∧ (name Sample.known, (@parse_incident Sample.env Sample.inc1 w1).1)
      ∈ drop (length (calls w1)) (calls w2).
Proof.
  eexists _, _, _, _.
  split; [vm_compute; reflexivity|]. split; [vm_compute; reflexivity|].
  split; [vm_compute; reflexivity|].
  pose proof (@forgotten_incident_is_new_again Sample.env Sample.known
                [Sample.inc2] [Sample.inc1] world0 _ _ _ _ eq_refl eq_refl)
    as [Hforget _].
  refine (Hforget (@parse_incident Sample.env Sample.inc1 _).1 _ _).
  - vm_compute. apply list_elem_of_In. left. reflexivity.
  - vm_compute. intros Hin%list_elem_of_In. destruct Hin as [?|[]]. discriminate.
Defined.

(** C5 as stated fails.  The callback raises on the first of two
    incidents of the initial cycle: the second one is not notified, the
    snapshot stays empty, and the run ends there although the schedule
    holds one more poll. *)
Lemma sink_failure_not_isolated :
  let run := @start Sample.env (Sample.monitor (Sample.broken_on "inc1"))
               (Sample.always (Sample.ok "v2"))
               [Poll (Sample.always (Sample.ok "v2"))] world0 in
  run.1.1 = Crashed "sink failure"
  ∧ (fun c : Call => id c.2) <$> calls run.2 = ["inc1"]
  ∧ _seen_incidents run.1.2 = ∅
  ∧ parsed run.2 = ["v2"].
Proof. vm_compute. done. Qed.

Lemma sink_failure_ends_the_run_witness :
  ∃ self' w',
    @_check_feed Sample.env (Sample.monitor (Sample.broken_on "inc1"))
      (Sample.always (Sample.ok "v2")) false world0
    = (Raised "sink failure", self', w')
    ∧ Sample.ids_of (calls w') = ["inc1"]%string
    ∧ _seen_incidents self' = ∅
    ∧ _etag self' = Some "etag-1"%string
    ∧ ∀ ticks,
        @poll_loop Sample.env (Sample.monitor (Sample.broken_on "inc1"))
          (Poll (Sample.always (Sample.ok "v2")) :: ticks) world0
        = (Crashed "sink failure", self', w').
Proof.
  destruct (@sink_failure_ends_the_run Sample.env
              (Sample.monitor (Sample.broken_on "inc1"))
              (Sample.always (Sample.ok "v2")) false world0
              (Some "etag-1"%string) None "v2"
              [] (@parse_incident Sample.env Sample.inc1 world0).1
              [(@parse_incident Sample.env Sample.inc2 world0).1]
              "sink failure"%string)
    as (self' & w' & Hcycle & Hcalls & Hseen & Hetag & _ & Hloop & _).
  - reflexivity.
  - vm_compute. reflexivity.
  - reflexivity.
  - intros pre1 j pre2 Hnil. by destruct pre1.
  - reflexivity.
  - exists self', w'. split; [exact Hcycle|]. split.
    + rewrite Hcalls. vm_compute. reflexivity.
    + split; [exact Hseen|]. split; [exact Hetag | exact (Hloop eq_refl)].
Defined.

Lemma malformed_empty_payload_is_noop_witness :
  let cycle := @_check_feed Sample.env Sample.known
                 (Sample.always (Sample.ok "<html>")) false world0 in
  cycle.1.1 = Done
  ∧ _seen_incidents cycle.1.2 = _seen_incidents Sample.known
  ∧ calls cycle.2 = [].
Proof.
  pose proof (@malformed_empty_payload_is_noop Sample.env Sample.known
                (Sample.always (Sample.ok "<html>")) false world0
                (Some "etag-1") None "<html>" eq_refl eq_refl eq_refl)
    as (Hdone & Hseen & Hcalls & _).
  split_and!; [exact Hdone | exact Hseen | exact Hcalls].
Defined.

Lemma success_replaces_validators_witness :
  let self' := (@_check_feed Sample.env
                  (set_validators (Some "etag-0") (Some "Mon, 03 Nov 2025") Sample.known)
                  (Sample.always (Sample.ok "v1")) false world0).1.2 in
  _etag self' = Some "etag-1" ∧ _last_modified self' = None.
Proof.
  exact (@success_replaces_validators Sample.env
           (set_validators (Some "etag-0") (Some "Mon, 03 Nov 2025") Sample.known)
           (Sample.always (Sample.ok "v1")) false world0
           (Some "etag-1") None (BodyText "v1") eq_refl).
Defined.



Lemma initial_flag_follows_first_success_witness :
  _seen_incidents (Sample.monitor Sample.quiet) = ∅
  ∧ let run := @start Sample.env (Sample.monitor Sample.quiet)
                 (Sample.always (NetError "timeout"))
                 (Poll <$> ([Sample.always (Sample.ok "<html>")]
                            ++ [Sample.always (Sample.ok "v2")])) world0 in
    run.1.1 = Running
    ∧ calls run.2
      = calls world0
        ++ notifications (Sample.monitor Sample.quiet)
             (@normalize_entries Sample.env
                (entries (@feedparser_parse Sample.env "v2")) world0).1.
Proof.
  split; [reflexivity|].
  refine (proj2 (@initial_flag_follows_first_success Sample.env
                   (Sample.monitor Sample.quiet) world0 eq_refl)
            (Sample.always (NetError "timeout"))
            [Sample.always (Sample.ok "<html>")]
            (Sample.always (Sample.ok "v2")) "v2" _ _ _ _ _).
  - done.
  - intros headers. reflexivity.
  - constructor; [|constructor]. intros headers. reflexivity.
  - intros headers. eexists _, _. reflexivity.
  - reflexivity.
Defined.

(** C4 fails on the code.  A response with status 200 whose body cannot
    be read (the connection drops or the time-out expires while
    [resp.text()] runs) is a transient failure: nothing is parsed and
    nothing is notified, yet the validators of the monitor are already
    those of the response. *)
Theorem validators_advance_when_body_read_fails :
  let r := Response 200 (Some "etag-2") (Some "Tue, 04 Nov 2025 10:00:00 GMT")
             (BodyError "TimeoutError") in
  let cycle := @_check_feed Sample.env Sample.known (Sample.always r) false world0 in
  fetch_outcome r = TransientFailure
  ∧ cycle.1.1 = Done
  ∧ parsed cycle.2 = [] ∧ calls cycle.2 = []
  ∧ _seen_incidents cycle.1.2 = _seen_incidents Sample.known
  ∧ _etag Sample.known = None ∧ _last_modified Sample.known = None
  ∧ _etag cycle.1.2 = Some "etag-2"
  ∧ _last_modified cycle.1.2 = Some "Tue, 04 Nov 2025 10:00:00 GMT".
Proof. cbn. split_and!; reflexivity. Qed.

(* ===================================================================== *)
(** ** Further properties of the program *)
(* ===================================================================== *)

Section TextHelpers.
Context `{Environment}.

(** *** Strings *)

Lemma truthy_nonempty s : truthy s = true → s ≠ ""%string.
Proof. by destruct s. Qed.





Lemma str_lstrip_head p s c rest :
  str_lstrip p s = String c rest → p c = false.
Proof.
  induction s as [|a s IH]; cbn; [done|].
  destruct (p a) eqn:E; [done|]. by intros [= <- _].
Qed.

Lemma str_rstrip_head p s c rest :
  str_rstrip p s = String c rest → ∃ rest0, s = String c rest0.
Proof.
  destruct s as [|a s]; cbn; [done|].
  destruct (str_rstrip p s); [destruct (p a)|]; intros [= <- _]; eauto.
Qed.

Lemma str_strip_by_head p s c rest :
  str_strip_by p s = String c rest → p c = false.
Proof.
  unfold str_strip_by. intros (rest0 & Hl)%str_rstrip_head.
  by apply str_lstrip_head in Hl.
Qed.

Lemma str_take_length n s : (String.length (str_take n s) ≤ n)%nat.
Proof.
  unfold str_take. revert s. induction n as [|n IH]; intros [|c s]; cbn; try lia.
  specialize (IH s). lia.
Qed.

Lemma str_take_head n c s : str_take (S n) (String c s) = String c (str_take n s).
Proof. done. Qed.

Lemma str_lstrip_fixed p s :
  (∀ c rest, s = String c rest → p c = false) → str_lstrip p s = s.
Proof.
  destruct s as [|c s]; [done|]. intros Hhead. cbn.
  by rewrite (Hhead c s eq_refl).
Qed.

Lemma str_rstrip_cons p c s :
  str_rstrip p (String c s)
  = match str_rstrip p s with
    | EmptyString => if p c then EmptyString else String c EmptyString
    | String a rest => String c (String a rest)
    end.
Proof. reflexivity. Qed.

Lemma str_rstrip_idem p s : str_rstrip p (str_rstrip p s) = str_rstrip p s.
Proof.
  induction s as [|c s IH]; [done|]. rewrite str_rstrip_cons.
  destruct (str_rstrip p s) as [|c' s'] eqn:E.
  - destruct (p c) eqn:Ep; [done|]. rewrite str_rstrip_cons. cbn. by rewrite Ep.
  - rewrite str_rstrip_cons. by rewrite IH.
Qed.

Lemma str_strip_by_idem p s :
  str_strip_by p (str_strip_by p s) = str_strip_by p s.
Proof.
  unfold str_strip_by at 1.
  rewrite str_lstrip_fixed; [apply str_rstrip_idem|].
  intros c rest. apply str_strip_by_head.
Qed.

(** *** [strip_html] *)

(** The text [strip_html] returns has no white space at either end:
    stripping it again changes nothing, whatever chunks the HTML parser
    hands over. *)
Theorem strip_html_is_stripped html :
  str_strip (strip_html html) = strip_html html
  ∧ ∀ ch rest, strip_html html = String ch rest → is_space ch = false.
Proof.
  unfold strip_html, str_strip. split; [apply str_strip_by_idem|].
  intros ch rest. apply str_strip_by_head.
Qed.

(** *** [_parse_status] *)

Lemma status_from_tags_known tags label :
  status_from_tags tags = Some label → str_lower label ∈ STATUS_LABELS.
Proof.
  induction tags as [|tag tags IH]; cbn [status_from_tags]; [done|].
  destruct (bool_decide _) eqn:E; [|exact IH].
  apply bool_decide_eq_true in E. intros [= <-].
  destruct (tag_label tag) as [l|]; cbn in *; [done|].
  exfalso. apply list_elem_of_In in E. cbn in E. intuition discriminate.
Qed.

Lemma status_from_text_known text :
  status_from_text text = "Unknown"%string
  ∨ str_lower (status_from_text text) ∈ STATUS_LABELS.
Proof.
  unfold status_from_text.
  repeat match goal with
         | |- context [if ?b then _ else _] =>
             destruct b; [right; apply (bool_decide_unpack _); by vm_compute|]
         end.
  by left.
Qed.

(** The status of an entry is ["Unknown"] or, up to letter case, one of
    the seven known statuses; a tag label is returned as the feed spells
    it. *)
Theorem parse_status_domain entry :
  _parse_status entry = "Unknown"%string
  ∨ str_lower (_parse_status entry) ∈ STATUS_LABELS.
Proof.
  unfold _parse_status.
  destruct (status_from_tags _) as [label|] eqn:E.
  - right. by apply status_from_tags_known in E.
  - apply status_from_text_known.
Qed.

(** *** [_parse_components] *)




(** *** [_parse_latest_message] *)

Lemma first_plain_line_shape lines line :
  first_plain_line lines = Some line →
  truthy line = true ∧ str_in "(" line = false
  ∧ ∀ ch rest, line = String ch rest → is_space ch = false.
Proof.
  induction lines as [|l lines IH]; cbn [first_plain_line]; [done|].
  destruct (truthy _ && negb _) eqn:E; [|exact IH].
  intros [= <-]. apply andb_true_iff in E as [-> Hn%negb_true_iff].
  split_and!; try done. intros ch rest Hc. by apply str_strip_by_head in Hc.
Qed.

(** The latest message of an entry is never empty and never begins with
    white space; a message that holds an opening parenthesis is the
    fall-back, that is the first 200 characters of the text of the
    entry, or the placeholder when that text is empty, and has at most
    200 characters. *)
Theorem parse_latest_message_shape entry :
  let text := strip_html (raw_text entry) in
  let message := _parse_latest_message entry in
  message ≠ ""%string
  ∧ (∀ ch rest, message = String ch rest → is_space ch = false)
  ∧ (str_in "(" message = true →
     ((text ≠ ""%string ∧ message = str_take 200 text)
      ∨ (text = ""%string ∧ message = "(no message)"%string))
     ∧ (String.length message ≤ 200)%nat).
Proof.
  cbn zeta. unfold _parse_latest_message.
  destruct (first_plain_line _) as [line|] eqn:E.
  - apply first_plain_line_shape in E as (Ht & Hp & Hs).
    split_and!; [by apply truthy_nonempty | done | by rewrite Hp].
  - destruct (strip_html (raw_text entry)) as [|c text] eqn:Et; cbn [truthy].
    + split_and!; [done | by intros ch rest [= <- _] |].
      intros _. split; [by right | cbn; lia].
    + split_and!.
      * by rewrite str_take_head.
      * rewrite str_take_head. intros ch rest [= <- _].
        unfold strip_html, str_strip in Et. by apply str_strip_by_head in Et.
      * intros _. split; [by left | apply str_take_length].
Qed.

(** *** [on_incident_update] *)


End TextHelpers.

Section MonitorProperties.
Context `{Environment}.
Implicit Types (self : StatusPageMonitor) (w : World) (i : IncidentUpdate).

(** *** Two consecutive cycles *)

Lemma normalize_entries_ids entries : ∀ w,
  id <$> (normalize_entries entries w).1 = entry_identity <$> entries.
Proof.
  induction entries as [|entry rest IH]; intros w; [done|].
  rewrite normalize_entries_step. cbn [fst fmap list_fmap]. rewrite IH.
  f_equal. unfold parse_incident. by destruct (_parse_timestamp entry w).
Qed.

Lemma lookup_snapshot_into_pair incs k v :
  snapshot_into ∅ incs !! k = Some v → (k, v) ∈ seen_pair <$> incs.
Proof.
  induction incs as [|i incs IH] using rev_ind;
    [unfold snapshot_into; cbn; by rewrite lookup_empty|].
  rewrite snapshot_into_snoc, fmap_app, elem_of_app.
  destruct (decide (id i = k)) as [<-|Hne].
  - rewrite lookup_insert_eq. intros [= <-]. right. by apply list_elem_of_singleton.
  - rewrite lookup_insert_ne by done. intros Hk. left. by apply IH.
Qed.

Lemma lookup_snapshot_into_nodup incs i :
  NoDup (id <$> incs) → i ∈ incs →
  snapshot_into ∅ incs !! id i = Some (updated_key i).
Proof.
  intros Hnd (l1 & l2 & ->)%list_elem_of_split.
  apply lookup_snapshot_into_last.
  rewrite fmap_app, fmap_cons in Hnd.
  apply NoDup_app in Hnd as (_ & _ & Hnd). by apply NoDup_cons in Hnd as [? _].
Qed.

Lemma fires_after_cycle incs i :
  NoDup (id <$> incs) →
  fires false (snapshot_into ∅ incs) i = true ↔ seen_pair i ∉ seen_pair <$> incs.
Proof.
  intros Hnd. unfold fires.
  destruct (snapshot_into ∅ incs !! id i) as [prev|] eqn:E.
  - rewrite bool_decide_eq_true. split.
    + intros Hne (j & [= Hid Hkey] & Hj)%list_elem_of_fmap.
      pose proof (lookup_snapshot_into_nodup incs j Hnd Hj) as Hl.
      rewrite <- Hid, E in Hl. congruence.
    + intros Hnot ->. apply Hnot. by apply lookup_snapshot_into_pair.
  - split; [|done]. intros _ (j & [= Hid Hkey] & Hj)%list_elem_of_fmap.
    pose proof (lookup_snapshot_into_nodup incs j Hnd Hj) as Hl.
    rewrite <- Hid, E in Hl. done.
Qed.

(** After a completed cycle over entries with pairwise distinct
    identities, a completed non-initial cycle notifies exactly the
    incidents whose pair of identity and updated-at key did not occur in
    the previous cycle, in feed order. *)
Theorem consecutive_cycles_diff self entries1 initial entries2 w self1 w1 self2 w2 :
  NoDup (entry_identity <$> entries1) →
  _process_entries self entries1 initial w = (Done, self1, w1) →
  _process_entries self1 entries2 false w1 = (Done, self2, w2) →
  calls w2
  = calls w1
    ++ notifications self
         (filter (λ i, seen_pair i ∉ seen_pair <$> (normalize_entries entries1 w).1)
                 (normalize_entries entries2 w1).1).
Proof.
  intros Hnd (-> & _ & _)%process_entries_done (_ & -> & _)%process_entries_done.
  cbn [set_seen _seen_incidents]. f_equal.
  unfold notifications. cbn [name set_seen]. f_equal.
  apply list_filter_iff. intros i. rewrite Is_true_true.
  apply fires_after_cycle. by rewrite normalize_entries_ids.
Qed.

Lemma process_loop_silent self entries : ∀ ns w,
  Forall has_timestamp entries →
  (∀ i, i ∈ (normalize_entries entries w).1 →
        fires false (_seen_incidents self) i = false) →
  process_loop self false entries ns w
  = (Done, snapshot_into ns (normalize_entries entries w).1, w).
Proof.
  induction entries as [|entry rest IH]; intros ns w Hd Hsilent; [done|].
  apply Forall_cons in Hd as [Hentry Hd].
  rewrite process_loop_step. cbn zeta.
  rewrite normalize_entries_step in Hsilent |- *. cbn [fst] in Hsilent |- *.
  destruct (parse_incident_dated entry w Hentry w) as [_ Hw].
  rewrite Hw in Hsilent |- *.
  rewrite Hsilent by apply list_elem_of_here.
  rewrite IH; [done | done |].
  intros i Hi. apply Hsilent. by apply list_elem_of_further.
Qed.

(** No-change suppression.  After a completed cycle over entries that
    all carry a timestamp and have pairwise distinct identities, a
    non-initial cycle over the same entries completes without invoking
    the callback and leaves the monitor and the world exactly as they
    were. *)
Theorem unchanged_feed_is_silent self entries initial w self1 w1 :
  Forall has_timestamp entries →
  NoDup (entry_identity <$> entries) →
  _process_entries self entries initial w = (Done, self1, w1) →
  _process_entries self1 entries false w1 = (Done, self1, w1).
Proof.
  intros Hd Hnd (-> & _ & _)%process_entries_done.
  unfold _process_entries at 1.
  pose proof (normalize_entries_dated entries w Hd) as Hw.
  pose proof (normalize_entries_dated entries w1 Hd) as Hw1.
  rewrite process_loop_silent; [| done |].
  - cbn [set_seen _seen_incidents]. rewrite Hw, Hw1. cbn [fst].
    unfold set_seen. cbn. done.
  - cbn [set_seen _seen_incidents]. rewrite Hw, Hw1. cbn [fst].
    intros i Hi. apply not_true_is_false. rewrite fires_after_cycle.
    + intros Hnot. apply Hnot. by apply list_elem_of_fmap_2.
    + rewrite <- (normalize_entries_ids entries w) in Hnd. by rewrite Hw in Hnd.
Qed.

(** *** One cycle of [_check_feed] *)




(** *** Runs of [start] *)





Lemma poll_loop_refused polls : ∀ self w,
  Forall refused polls →
  poll_loop self (Poll <$> polls) w = (Running, self, w).
Proof.
  induction polls as [|g polls IH]; intros self w Hall; [done|].
  apply Forall_cons in Hall as [Hg Hall].
  cbn [fmap list_fmap poll_loop].
  rewrite refused_fetch_changes_nothing by apply Hg. by apply IH.
Qed.

(** While every request is refused (an error before any response, a 304,
    or any status other than 200), the monitor keeps polling and nothing
    else happens: no payload is parsed, no notification is made, and the
    validators and the snapshot stay as they were. *)
Theorem refused_requests_change_nothing self first polls w :
  refused first → Forall refused polls →
  start self first (Poll <$> polls) w = (Running, set_running true self, w).
Proof.
  intros Hfirst Hall. unfold start.
  rewrite refused_fetch_changes_nothing by apply Hfirst.
  by apply poll_loop_refused.
Qed.

(** *** Conditional requests *)

Lemma request_headers_lookup self :
  request_headers self !! "If-None-Match"%string = header_for (_etag self)
  ∧ request_headers self !! "If-Modified-Since"%string
    = header_for (_last_modified self)
  ∧ ∀ k, k ≠ "If-None-Match"%string → k ≠ "If-Modified-Since"%string →
         request_headers self !! k = None.
Proof.
  unfold request_headers, header_for.
  destruct (_etag self) as [e|], (_last_modified self) as [m|];
    try destruct (truthy e); try destruct (truthy m);
    split_and!; intros; by simplify_map_eq.
Qed.

(** The validators of a response with status 200 come back as the
    conditional headers of the next request: [If-None-Match] carries the
    entity tag and [If-Modified-Since] the last-modified value; a header
    the response lacked, or gave empty, is not sent even if the monitor
    held a validator before; no other header is sent. *)
Theorem next_request_carries_validators self http_get initial w etag lm body_read :
  http_get (request_headers self) = Response 200 etag lm body_read →
  let next := request_headers (_check_feed self http_get initial w).1.2 in
  next !! "If-None-Match"%string = header_for etag
  ∧ next !! "If-Modified-Since"%string = header_for lm
  ∧ ∀ k, k ≠ "If-None-Match"%string → k ≠ "If-Modified-Since"%string →
         next !! k = None.
Proof.
  intros Hget. cbn zeta.
  assert (Hv : _etag (_check_feed self http_get initial w).1.2 = etag
               ∧ _last_modified (_check_feed self http_get initial w).1.2 = lm).
  { unfold _check_feed. rewrite Hget. cbn [Z.eqb Pos.eqb negb].
    destruct body_read as [body|reason]; [|done]. cbn [parse_feed].
    destruct (bozo (feedparser_parse body)), (entries (feedparser_parse body));
      try done;
      match goal with
      | |- context [_process_entries ?m ?es ?b ?w0] =>
          destruct (process_entries_fields m es b w0) as (_ & _ & -> & -> & _)
      end; done. }
  destruct Hv as [He Hm].
  destruct (request_headers_lookup (_check_feed self http_get initial w).1.2)
    as (H1 & H2 & H3).
  by rewrite He in H1; rewrite Hm in H2.
Qed.

(** *** The wall clock *)

Lemma normalize_entries_clock_reads entries : ∀ w,
  clock_reads (normalize_entries entries w).2
  = (clock_reads w + length (filter (λ entry, ¬ has_timestamp entry) entries))%nat.
Proof.
  induction entries as [|entry rest IH]; intros w; [cbn; lia|].
  rewrite normalize_entries_step. cbn [snd]. rewrite IH, filter_cons.
  unfold parse_incident, _parse_timestamp, has_timestamp.
  destruct (time_struct_of entry) as [t|] eqn:E; cbn [snd].
  - rewrite decide_False by (intros Hn; apply Hn; by eexists). lia.
  - rewrite decide_True by (by intros [? ?]). cbn. lia.
Qed.

(** A completed cycle reads the wall clock once for each entry that has
    neither an updated nor a published timestamp, and not at all when
    every entry has one. *)
Theorem clock_read_once_per_undated_entry self entries initial w self' w' :
  _process_entries self entries initial w = (Done, self', w') →
  clock_reads w'
  = (clock_reads w + length (filter (λ entry, ¬ has_timestamp entry) entries))%nat.
Proof.
  unfold _process_entries.
  destruct (process_loop self initial entries ∅ w) as [[[|e] ns] w1] eqn:Hrun;
    [|done].
  intros [= <- <-].
  apply process_loop_done in Hrun as (_ & _ & -> & _).
  apply normalize_entries_clock_reads.
Qed.

End MonitorProperties.

(** *** The further properties on the sample data *)

Lemma consecutive_cycles_diff_witness :
  ∃ self1 w1 self2 w2,
    NoDup (entry_identity <$> [Sample.inc1; Sample.inc2])
    ∧ @_process_entries Sample.env (Sample.monitor Sample.quiet)
        [Sample.inc1; Sample.inc2] true world0 = (Done, self1, w1)
    ∧ @_process_entries Sample.env self1
        [Sample.inc1_later; Sample.inc2; Sample.undated] false w1
      = (Done, self2, w2)
    ∧ calls w2
      = calls w1
        ++ notifications (Sample.monitor Sample.quiet)
             (filter (λ i, seen_pair i
                           ∉ seen_pair <$> (@normalize_entries Sample.env
                                              [Sample.inc1; Sample.inc2] world0).1)
                     (@normalize_entries Sample.env
                        [Sample.inc1_later; Sample.inc2; Sample.undated] w1).1).
Proof.
  assert (Hnd : NoDup (entry_identity <$> [Sample.inc1; Sample.inc2])).
  { apply (bool_decide_unpack _). by vm_compute. }
  eexists _, _, _, _. split; [exact Hnd|].
  split; [vm_compute; reflexivity|]. split; [vm_compute; reflexivity|].
  exact (@consecutive_cycles_diff Sample.env (Sample.monitor Sample.quiet)
           [Sample.inc1; Sample.inc2] true
           [Sample.inc1_later; Sample.inc2; Sample.undated] world0
           _ _ _ _ Hnd eq_refl eq_refl).
Defined.

Lemma unchanged_feed_is_silent_witness :
  ∃ self1 w1,
    @_process_entries Sample.env (Sample.monitor (Sample.broken_on "inc2"))
      [Sample.inc1] true world0 = (Done, self1, w1)
    ∧ @_process_entries Sample.env self1 [Sample.inc1] false w1 = (Done, self1, w1).
Proof.
  eexists _, _. split; [vm_compute; reflexivity|].
  apply (@unchanged_feed_is_silent Sample.env
           (Sample.monitor (Sample.broken_on "inc2")) [Sample.inc1] true world0).
  - repeat constructor; eexists; reflexivity.
  - apply (bool_decide_unpack _). by vm_compute.
  - vm_compute. reflexivity.
Defined.

Lemma refused_requests_change_nothing_witness :
  @start Sample.env Sample.known (Sample.always (NetError "timeout"))
    (Poll <$> [Sample.always (Response 304 None None (BodyError ""));
               Sample.always (Response 503 (Some "etag-9") None (BodyText "v2"))])
    world0
  = (Running, set_running true Sample.known, world0).
Proof.
  apply (@refused_requests_change_nothing Sample.env).
  - intros headers. exact I.
  - repeat constructor; intros headers; cbn; lia.
Defined.

Lemma next_request_carries_validators_witness :
  let next := request_headers
                (@_check_feed Sample.env
                   (set_validators (Some "etag-0") (Some "Mon, 03 Nov 2025")
                      Sample.known)
                   (Sample.always (Sample.ok "v1")) false world0).1.2 in
  next !! "If-None-Match"%string = Some "etag-1"%string
  ∧ next !! "If-Modified-Since"%string = None.
Proof.
  pose proof (@next_request_carries_validators Sample.env
                (set_validators (Some "etag-0") (Some "Mon, 03 Nov 2025")
                   Sample.known)
                (Sample.always (Sample.ok "v1")) false world0
                (Some "etag-1"%string) None (BodyText "v1") eq_refl)
    as (H1 & H2 & _).
  split; [exact H1 | exact H2].
Defined.

Lemma clock_read_once_per_undated_entry_witness :
  ∃ self' w',
    @_process_entries Sample.env Sample.known
      [Sample.undated; Sample.inc1; Sample.undated] false world0
    = (Done, self', w')
    ∧ clock_reads w'
      = (clock_reads world0
         + length (filter (λ entry, ¬ has_timestamp entry)
                     [Sample.undated; Sample.inc1; Sample.undated]))%nat.
Proof.
  eexists _, _. split; [vm_compute; reflexivity|].
  exact (@clock_read_once_per_undated_entry Sample.env Sample.known
           [Sample.undated; Sample.inc1; Sample.undated] false world0
           _ _ eq_refl).
Defined.

(* ===================================================================== *)
(** ** Worked examples *)
(* ===================================================================== *)

Module Examples.
Import Sample.

Example timegm_2025 : timegm (mk_time 2025 11 3 14 32 0) = 1762180320.
Proof. reflexivity. Qed.

Example timegm_before_epoch : timegm (mk_time 1969 12 31 23 59 59) = -1.
Proof. reflexivity. Qed.

Example isoformat_2025 :
  isoformat (fromtimestamp 1762180320) = "2025-11-03T14:32:00+00:00"%string.
Proof. vm_compute. reflexivity. Qed.

Example isoformat_leap_day :
  isoformat (fromtimestamp 951868799) = "2000-02-29T23:59:59+00:00"%string.
Proof. vm_compute. reflexivity. Qed.

Example isoformat_year_end :
  isoformat (fromtimestamp 1735603201) = "2024-12-31T00:00:01+00:00"%string.
Proof. vm_compute. reflexivity. Qed.

Example isoformat_before_epoch :
  isoformat (fromtimestamp (-2203891200)) = "1900-03-01T00:00:00+00:00"%string.
Proof. vm_compute. reflexivity. Qed.

Example isoformat_micro :
  isoformat (1762180320 * 1000000 + 123)
  = "2025-11-03T14:32:00.000123+00:00"%string.
Proof. vm_compute. reflexivity. Qed.

Example split_lines_ex :
  str_split_nl (String "a" (String nl (String nl (String "b" (String nl "")))))
  = ["a"; ""; "b"; ""]%string.
Proof. reflexivity. Qed.

Example strip_dash_ex : str_strip_by is_dash_or_blank "- -x (y) -" = "x (y)"%string.
Proof. reflexivity. Qed.

Example parse_incident_ex :
  let i := (@parse_incident env inc1 world0).1 in
  (id i, title i, status i, latest_message i, affected_components i,
   updated_key i)
  = ("inc1", "Incident 1", "Investigating",
     "We are investigating the issue.", [],
     "2025-11-03T14:00:00+00:00")%string.
Proof. vm_compute. reflexivity. Qed.

Example components_from_text :
  @_parse_components env
    {| e_id := None; e_title := None; e_link := None;
       e_updated_parsed := None; e_published_parsed := None;
       e_tags := None; e_content := None;
       e_summary :=
         Some (String.append "- Conversations (Degraded Performance)"
                 (String nl "- Login (Operational)")) |}
  = ["Conversations (Degraded Performance)"; "Login (Operational)"]%string.
Proof. vm_compute. reflexivity. Qed.

(** [test_components_from_tags] *)
Example components_from_tags :
  @_parse_components env
    {| e_id := None; e_title := None; e_link := None;
       e_updated_parsed := None; e_published_parsed := None;
       e_tags := Some [ {| tag_term := Some "Chat Completions";
                           tag_label := Some "" |};
                        {| tag_term := Some ""; tag_label := None |};
                        {| tag_term := Some "Responses";
                           tag_label := Some "" |} ];
       e_content := None;
       e_summary := Some "- Login (Operational)" |}
  = ["Chat Completions"; "Responses"]%string.
Proof. vm_compute. reflexivity. Qed.

(** [test_on_incident_update_prints] *)
Example console_output_ex :
  on_incident_update_output "OpenAI API"
    {| id := "test1"; title := "Test Incident";
       link := "https://example.com/test1"; status := "Investigating";
       affected_components := ["Chat Completions"; "Responses"];
       latest_message := "We are investigating.";
       updated_at := fromtimestamp 1762180320 |}
  = [""; RULE;
     "[2025-11-03 14:32:00] Product: OpenAI API - Chat Completions";
     "[2025-11-03 14:32:00] Product: OpenAI API - Responses";
     "  Incident: Test Incident"; "  Status:   Investigating";
     "  Message:  We are investigating.";
     "  Link:     https://example.com/test1"; RULE]%string.
Proof. vm_compute. reflexivity. Qed.

(** Without distinct identities an unchanged feed is not silent: of two
    entries with one identity and different timestamps the later is
    stored, so that the earlier one is notified again in every cycle. *)
Example duplicate_identity_renotifies :
  let c1 := @_process_entries env (monitor quiet) [inc1_later; inc1] true world0 in
  let c2 := @_process_entries env c1.1.2 [inc1_later; inc1] false c1.2 in
  let c3 := @_process_entries env c2.1.2 [inc1_later; inc1] false c2.2 in
  (updated_key ∘ snd) <$> drop (length (calls c1.2)) (calls c3.2)
  = ["2025-11-03T15:00:00+00:00"; "2025-11-03T15:00:00+00:00"]%string.
Proof. vm_compute. reflexivity. Qed.

(** [test_initial_run_fires_all] *)
Example initial_run_fires_all :
  ids_of (calls (@_process_entries env (monitor quiet) [inc1; inc2] true world0).2)
  = ["inc1"; "inc2"]%string.
Proof. vm_compute. reflexivity. Qed.

(** [test_no_change_no_callback] *)
Example no_change_no_callback :
  let c1 := @_process_entries env (monitor quiet) [inc1] true world0 in
  let c2 := @_process_entries env c1.1.2 [inc1] false c1.2 in
  calls c2.2 = calls c1.2.
Proof. vm_compute. reflexivity. Qed.

(** [test_new_incident_fires_callback] *)
Example new_incident_fires_callback :
  let c1 := @_process_entries env (monitor quiet) [inc1] true world0 in
  let c2 := @_process_entries env c1.1.2 [inc1; inc2] false c1.2 in
  ids_of (drop (length (calls c1.2)) (calls c2.2)) = ["inc2"]%string.
Proof. vm_compute. reflexivity. Qed.

(** [test_updated_incident_fires_callback], and the way back: the
    timestamp moving from [t2] to [t1] notifies as well. *)
Example update_either_direction :
  let c1 := @_process_entries env (monitor quiet) [inc1] true world0 in
  let c2 := @_process_entries env c1.1.2 [inc1_later] false c1.2 in
  let c3 := @_process_entries env c2.1.2 [inc1] false c2.2 in
  (updated_key ∘ snd) <$> calls c3.2
  = ["2025-11-03T14:00:00+00:00"; "2025-11-03T15:00:00+00:00";
     "2025-11-03T14:00:00+00:00"]%string.
Proof. vm_compute. reflexivity. Qed.

(** An entry without a timestamp is notified in every cycle. *)
Example undated_entry_always_fires :
  let c1 := @_process_entries env (monitor quiet) [undated] true world0 in
  let c2 := @_process_entries env c1.1.2 [undated] false c1.2 in
  let c3 := @_process_entries env c2.1.2 [undated] false c2.2 in
  ids_of (calls c3.2) = ["inc3"; "inc3"; "inc3"]%string.
Proof. vm_compute. reflexivity. Qed.

(** A duplicated identity: each occurrence is compared with the
    previous snapshot, the later one is kept. *)
Example duplicate_identity :
  let c := @_process_entries env known [inc1_later; inc1] false world0 in
  ids_of (calls c.2) = ["inc1"]%string
  ∧ _seen_incidents c.1.2 !! "inc1"%string
    = Some "2025-11-03T14:00:00+00:00"%string.
Proof. vm_compute. done. Qed.

(** The validators that were stored are sent with the next request. *)
Example conditional_request_headers :
  request_headers
    (set_validators (Some "etag-1") (Some "") (monitor quiet))
  = <["If-None-Match" := "etag-1"]> ∅.
Proof. vm_compute. reflexivity. Qed.

(** A full run: a failed first request, a malformed payload, then two
    good payloads, then [stop]. *)
Example full_run :
  let run := @start env (monitor quiet) (always (NetError "refused"))
               [Poll (always (ok "<html>")); Poll (always (ok "v1"));
                Poll (always (Response 304 None None (BodyError "")));
                Poll (always (ok "v2")); Stop;
                Poll (always (ok "v1"))] world0 in
  run.1.1 = Stopped
  ∧ ids_of (calls run.2) = ["inc1"; "inc2"]%string
  ∧ parsed run.2 = ["<html>"; "v1"; "v2"]%string
  ∧ _running run.1.2 = false.
Proof. vm_compute. done. Qed.

End Examples.
